(** * User-based collaborative filtering: [recommenderSystem.py]

    A shallow embedding of the similarity / neighbourhood / prediction /
    recommendation pipeline of [src/recommenderSystem.py], and the
    properties of it that the specification states.

    Numbers.  The program computes on Python floats.  The embedding is
    written once, over an interface [PyNum] of the operations the program
    uses ([+], [-], [*], [/], [sqrt], [==], [<] and the int-to-float
    conversion), and is read at two instances:
    - [float_num], IEEE binary64 ([PrimFloat]), which is what Python
      executes, NaN included; the examples are evaluated there;
    - [R_num], the real numbers, the arithmetic without rounding in
      which the specification speaks ("real number").
    Structural properties are proved for every instance; a property that
    needs a law of arithmetic takes the law as a hypothesis and names it.

    Libraries.  pandas, numpy and scikit-learn are no part of the
    repository; the functions the program calls ([pivot_table], [mean],
    [sort_values], [corrcoef], [fill_diagonal], [cosine_similarity]) are
    embedded after their implementation, next to the call that uses them.
    Sums run from left to right. *)

From Stdlib Require Import String.
From Stdlib Require Import Floats Reals Lra.
From Stdlib Require Import List ZArith Lia Bool Permutation Sorted.
Import ListNotations.

Set Warnings "-inexact-float".

(* ================================================================== *)
(** * Arithmetic interface *)

Class PyNum (F : Type) : Type := {
  of_int : Z -> F;          (* int operand promoted to float *)
  add  : F -> F -> F;
  sub  : F -> F -> F;
  mul  : F -> F -> F;
  div  : F -> F -> F;       (* true division, numpy semantics: x/0 is inf or nan *)
  sqrt : F -> F;
  eqb  : F -> F -> bool;    (* ==  *)
  ltb  : F -> F -> bool     (* <   *)
}.

Declare Scope num_scope.
Delimit Scope num_scope with num.
Infix "+" := add : num_scope.
Infix "-" := sub : num_scope.
Infix "*" := mul : num_scope.
Infix "/" := div : num_scope.
Infix "==" := eqb (at level 70, no associativity) : num_scope.
Infix "<?" := ltb : num_scope.

Section Derived.
Context {F : Type} {N : PyNum F}.

Definition zero : F := of_int 0.
Definition one : F := of_int 1.

(** [x != y] of Python. *)
Definition neb (x y : F) : bool := negb (x == y)%num.

(** pandas [isna] on a float cell: the only value different from itself. *)
Definition isna (x : F) : bool := negb (x == x)%num.

(** Left-to-right accumulation [acc += x]. *)
Definition sum_from (acc : F) (l : list F) : F := fold_left add l acc.

Definition total (l : list F) : F := sum_from zero l.
End Derived.

(** IEEE binary64, the arithmetic of the running program. *)
#[export] Instance float_num : PyNum float := {
  of_int n := if (n <? 0)%Z
              then PrimFloat.opp (PrimFloat.of_uint63 (Uint63.of_Z (- n)))
              else PrimFloat.of_uint63 (Uint63.of_Z n);
  add := PrimFloat.add;
  sub := PrimFloat.sub;
  mul := PrimFloat.mul;
  div := PrimFloat.div;
  sqrt := PrimFloat.sqrt;
  eqb := PrimFloat.eqb;
  ltb := PrimFloat.ltb
}.

Definition Reqb (x y : R) : bool := if Req_dec_T x y then true else false.
Definition Rltb (x y : R) : bool := if Rlt_dec x y then true else false.

(** Exact real arithmetic, the arithmetic of the specification. *)
#[export] Instance R_num : PyNum R := {
  of_int := IZR;
  add := Rplus;
  sub := Rminus;
  mul := Rmult;
  div := Rdiv;
  sqrt := R_sqrt.sqrt;
  eqb := Reqb;
  ltb := Rltb
}.

(* ------------------------------------------------------------------ *)
(** ** Laws of an arithmetic *)

(** What the sorting arguments need of [<]: it is asymmetric, its
    complement is transitive through a number, and NaN is below and above
    nothing. *)
Class OrderLaws (F : Type) {N : PyNum F} : Prop := {
  ltb_asym : forall x y : F, (x <? y)%num = true -> (y <? x)%num = false;
  ltb_negtrans : forall x y z : F,
      isna y = false -> (x <? y)%num = false -> (y <? z)%num = false ->
      (x <? z)%num = false;
  ltb_nan_l : forall x y : F, isna x = true -> (x <? y)%num = false;
  ltb_nan_r : forall x y : F, isna y = true -> (x <? y)%num = false
}.
Arguments OrderLaws F {N}.

(** Products commute: a law of the reals and of IEEE floats. *)
Class MulComm (F : Type) {N : PyNum F} : Prop :=
  mul_comm : forall x y : F, (x * y)%num = (y * x)%num.
Arguments MulComm F {N}.

(** Two successive divisions may be exchanged: a law of the reals, not of
    IEEE floats, where each division rounds. *)
Class DivSwap (F : Type) {N : PyNum F} : Prop :=
  div_swap : forall x y z : F, ((x / y) / z)%num = ((x / z) / y)%num.
Arguments DivSwap F {N}.

(* ================================================================== *)
(** * Errors *)

Inductive error : Type :=
| KeyError      (* label absent from an index *)
| TypeError     (* an operation applied to the wrong kind of object *)
| ValueError.   (* numpy: array of the wrong shape *)

Inductive result (A : Type) : Type :=
| Ok (a : A)
| Raise (e : error).
Arguments Ok {A} a.
Arguments Raise {A} e.

Definition bind {A B} (r : result A) (k : A -> result B) : result B :=
  match r with
  | Ok a => k a
  | Raise e => Raise e
  end.

Notation "x <- r ;; k" := (bind r (fun x => k))
  (at level 61, r at next level, right associativity).

(* ================================================================== *)
(** * Data model *)

(** One row of the merged [ratings] DataFrame ([load_dataset]). *)
Record row (F : Type) : Type := Row {
  userId  : Z;
  movieId : Z;
  rating  : F;
  title   : string
}.
Arguments Row {F}.
Arguments userId {F}.
Arguments movieId {F}.
Arguments rating {F}.
Arguments title {F}.

(** A pandas Series with integer labels: the (label, value) pairs in order. *)
Definition series (F : Type) : Type := list (Z * F).

(** A labelled square DataFrame: [values] is the list of rows. *)
Record frame (F : Type) : Type := Frame {
  index   : list Z;
  columns : list Z;
  values  : list (list F)
}.
Arguments Frame {F}.
Arguments index {F}.
Arguments columns {F}.
Arguments values {F}.

Definition memZ (x : Z) (l : list Z) : bool := existsb (Z.eqb x) l.

(** Python's [l[0:n]]: a negative stop counts from the end. *)
Definition slice_to {A} (n : Z) (l : list A) : list A :=
  if (0 <=? n)%Z then firstn (Z.to_nat n) l
  else firstn (length l - Z.to_nat (- n)) l.

(** A Python [dict]: the (key, value) pairs in insertion order, each key
    once. *)
Definition dict (K V : Type) : Type := list (K * V).

Section Dict.
Context {K V : Type} (keq : K -> K -> bool).

(** [d.get(k)]; [k in d] is [dict_get k d <> None]. *)
Fixpoint dict_get (k : K) (d : dict K V) : option V :=
  match d with
  | [] => None
  | (k', v) :: d' => if keq k' k then Some v else dict_get k d'
  end.

(** [d[k] = v]: a key already present keeps its place and takes the new
    value, a new key goes last. *)
Fixpoint dict_set (k : K) (v : V) (d : dict K V) : dict K V :=
  match d with
  | [] => [(k, v)]
  | (k', v') :: d' => if keq k' k then (k', v) :: d' else (k', v') :: dict_set k v d'
  end.

(** [d[k]] as an expression. *)
Definition dict_index (k : K) (d : dict K V) : result V :=
  match dict_get k d with
  | Some v => Ok v
  | None => Raise KeyError
  end.

(** [dict(zip(ks, vs))]. *)
Definition dict_zip (ks : list K) (vs : list V) : dict K V :=
  fold_left (fun d kv => dict_set (fst kv) (snd kv) d) (combine ks vs) [].
End Dict.

(** A [for] loop whose body may raise. *)
Fixpoint for_each {A S} (body : S -> A -> result S) (l : list A) (s : S) : result S :=
  match l with
  | [] => Ok s
  | x :: l' => s' <- body s x ;; for_each body l' s'
  end.

Definition pair_eqb (a b : Z * string) : bool :=
  (fst a =? fst b)%Z && String.eqb (snd a) (snd b).

(** [DataFrame.drop_duplicates()] on (movieId, title) rows: the first
    occurrence of each row, in order. *)
Fixpoint drop_duplicates_from (seen l : list (Z * string)) : list (Z * string) :=
  match l with
  | [] => []
  | x :: l' =>
      if existsb (pair_eqb x) seen then drop_duplicates_from seen l'
      else x :: drop_duplicates_from (x :: seen) l'
  end.

Definition drop_duplicates (l : list (Z * string)) : list (Z * string) :=
  drop_duplicates_from [] l.

Section Program.
Context {F : Type} {N : PyNum F}.
Local Open Scope num_scope.

(* ---------------------------------------------------------------- *)
(** ** pandas helpers *)

(** [Series.mean()]: NaN cells are skipped; the mean of no cell is
    [0/0]. *)
Definition mean (l : list F) : F :=
  let l' := filter (fun x => negb (isna x)) l in
  total l' / of_int (Z.of_nat (length l')).

(** Positions of a label in a list of labels. *)
Fixpoint positions (t : Z) (l : list Z) (i : nat) : list nat :=
  match l with
  | [] => []
  | x :: l' => if (x =? t)%Z then i :: positions t l' (S i) else positions t l' (S i)
  end.

(** [df[label]]: the column of that label as a Series over the frame's
    index.  An absent label raises [KeyError]; a repeated label selects
    a DataFrame, on which the [sort_values(ascending=False)] that
    follows raises [TypeError]. *)
Definition getitem (df : frame F) (t : Z) : result (series F) :=
  match positions t (columns df) 0 with
  | [] => Raise KeyError
  | [p] => Ok (combine (index df) (map (fun r => nth p r zero) (values df)))
  | _ => Raise TypeError
  end.

(** Stable insertion into a list that is descending by value: the new
    entry goes before the first entry that is not greater than it. *)
Fixpoint insert_desc {A} (key : A -> F) (x : A) (l : list A) : list A :=
  match l with
  | [] => [x]
  | y :: l' => if key x <? key y then y :: insert_desc key x l' else x :: y :: l'
  end.

(** Stable descending sort by [key], using [<] only. *)
Definition sort_desc {A} (key : A -> F) (l : list A) : list A :=
  fold_right (insert_desc key) [] l.

(** [Series.sort_values(ascending=False)]: the non-NaN entries in
    descending order of value, then the NaN entries in their original
    order ([na_position='last']).  pandas sorts the values alone; the
    labels are carried along and are no sort key.  The default
    [kind='quicksort'] is not stable: the order in which entries of equal
    value come out is decided by numpy's sort, not by the program.  Here
    they keep their original order, as [kind='stable'] would have it;
    [sort_values_outcome] below describes every order pandas may return,
    and no property proved of this function depends on the order of equal
    values. *)
Definition sort_values_desc (s : series F) : series F :=
  sort_desc snd (filter (fun e => negb (isna (snd e))) s)
  ++ filter (fun e => isna (snd e)) s.

(* ---------------------------------------------------------------- *)
(** ** get_top_similar_users *)

(** [similarity_df[target_user].sort_values(ascending=False)[0:n]].
    The function also prints the first ten entries; printing does not
    change the value returned. *)
Definition get_top_similar_users (similarity_df : frame F) (target_user : Z) (n : Z)
  : result (series F) :=
  col <- getitem similarity_df target_user ;;
  Ok (slice_to n (sort_values_desc col)).

(* ---------------------------------------------------------------- *)
(** ** load_dataset *)

(** [pd.merge(ratings, movies)] on the two tables read from the CSV files:
    [ratings] keeps its first three columns (userId, movieId, rating),
    [movies] its first two (movieId, title).  The merge is an inner join on
    the one column the tables share, [movieId]: every rating row is paired
    with every movie row of its movieId, in the order of the rating rows.
    Reading the files is left to the caller. *)
Definition load_dataset (ratings_csv : list (Z * Z * F)) (movies_csv : list (Z * string))
  : list (row F) :=
  flat_map (fun r =>
              map (fun mv => Row (fst (fst r)) (snd (fst r)) (snd r) (snd mv))
                  (filter (fun mv => (fst mv =? snd (fst r))%Z) movies_csv))
           ratings_csv.

(* ---------------------------------------------------------------- *)
(** ** get_user_ratings *)

(** [ratings[ratings['userId'] == user]]. *)
Definition get_user_ratings (ratings : list (row F)) (user : Z) : list (row F) :=
  filter (fun r => (userId r =? user)%Z) ratings.

(* ---------------------------------------------------------------- *)
(** ** predict_ratings *)

(** The first loop: per neighbour, the mean of its ratings and the
    dict movieId -> rating of its rows. *)
Definition precompute (ratings : list (row F)) (similar_users : series F)
  : dict Z F * dict Z (dict Z F) :=
  fold_left
    (fun st e =>
       let user := fst e in
       let user_ratings := get_user_ratings ratings user in
       (dict_set Z.eqb user (mean (map rating user_ratings)) (fst st),
        dict_set Z.eqb user
          (dict_zip Z.eqb (map movieId user_ratings) (map rating user_ratings))
          (snd st)))
    similar_users ([], []).

(** Body of the inner loop over the neighbours, for one movie. *)
Definition accumulate (similar_users_mean_rating : dict Z F)
           (user_ratings_dict : dict Z (dict Z F)) (movie_id : Z)
           (sums : F * F) (e : Z * F) : result (F * F) :=
  let (user, similarity) := e in
  let (weighted_sum, similarity_sum) := sums in
  d <- dict_index Z.eqb user user_ratings_dict ;;
  match dict_get Z.eqb movie_id d with
  | Some user_rating =>
      m <- dict_index Z.eqb user similar_users_mean_rating ;;
      Ok (weighted_sum + similarity * (user_rating - m), similarity_sum + similarity)
  | None => Ok sums
  end.

(** Body of the loop over [unseen_movies.iterrows()]. *)
Definition predict_movie (target_user_mean_rating : F) (similar_users : series F)
           (similar_users_mean_rating : dict Z F)
           (user_ratings_dict : dict Z (dict Z F))
           (predicted_ratings : dict string F) (mv : Z * string)
  : result (dict string F) :=
  let (movie_id, movie_title) := mv in
  sums <- for_each (accumulate similar_users_mean_rating user_ratings_dict movie_id)
                   similar_users (zero, zero) ;;
  let (weighted_sum, similarity_sum) := sums in
  if neb similarity_sum zero
  then Ok (dict_set String.eqb movie_title
                    (target_user_mean_rating + weighted_sum / similarity_sum)
                    predicted_ratings)
  else Ok predicted_ratings.

(** [unseen_movies]: the (movieId, title) rows of the neighbours'
    ratings whose movieId the target user has not rated. *)
Definition unseen_movies (ratings : list (row F)) (similar_users : series F)
           (target_user : Z) : list (Z * string) :=
  let target_user_ratings := get_user_ratings ratings target_user in
  let similar_users_seen_movies :=
    filter (fun r => memZ (userId r) (map fst similar_users)) ratings in
  drop_duplicates
    (map (fun r => (movieId r, title r))
         (filter (fun r => negb (memZ (movieId r) (map movieId target_user_ratings)))
                 similar_users_seen_movies)).

(** [predict_ratings] from the point where [similar_users] is known. *)
Definition predict_with (ratings : list (row F)) (similar_users : series F)
           (target_user : Z) : result (dict string F) :=
  let target_user_ratings := get_user_ratings ratings target_user in
  let target_user_mean_rating := mean (map rating target_user_ratings) in
  let pre := precompute ratings similar_users in
  for_each (predict_movie target_user_mean_rating similar_users (fst pre) (snd pre))
           (unseen_movies ratings similar_users target_user) [].

(** [get_top_similar_users] is called with its default [n=40]. *)
Definition predict_ratings (ratings : list (row F)) (similarity_df : frame F)
           (target_user : Z) : result (dict string F) :=
  similar_users <- get_top_similar_users similarity_df target_user 40 ;;
  predict_with ratings similar_users target_user.

(* ---------------------------------------------------------------- *)
(** ** The prediction formula, in the words of the specification *)

(** rating(u, item): the rating user [u] gave to movie [m]; of several
    rows for the same pair the last one counts. *)
Definition rating_of (ratings : list (row F)) (u m : Z) : option F :=
  match rev (filter (fun r => (movieId r =? m)%Z) (get_user_ratings ratings u)) with
  | [] => None
  | r :: _ => Some (rating r)
  end.

(** meanRating(u): the mean of all ratings given by [u]. *)
Definition mean_rating (ratings : list (row F)) (u : Z) : F :=
  mean (map rating (get_user_ratings ratings u)).

(** weightedSum: over the neighbours that rated the item, in the order of
    the neighbourhood, similarity(u) * (rating(u, item) - meanRating(u)). *)
Definition weighted_sum (ratings : list (row F)) (similar_users : series F) (m : Z) : F :=
  total (flat_map (fun e => match rating_of ratings (fst e) m with
                            | Some r => [snd e * (r - mean_rating ratings (fst e))]
                            | None => []
                            end) similar_users).

(** similaritySum: similarity(u) over the same neighbours. *)
Definition similarity_sum (ratings : list (row F)) (similar_users : series F) (m : Z) : F :=
  total (flat_map (fun e => match rating_of ratings (fst e) m with
                            | Some _ => [snd e]
                            | None => []
                            end) similar_users).

(** predictedRating = targetMeanRating + weightedSum / similaritySum. *)
Definition predicted_rating (ratings : list (row F)) (similar_users : series F)
           (target_user m : Z) : F :=
  mean_rating ratings target_user
  + weighted_sum ratings similar_users m / similarity_sum ratings similar_users m.

(** The PredictionSet built candidate by candidate: a candidate whose
    similaritySum is not 0 writes its prediction under its title. *)
Definition prediction_set (ratings : list (row F)) (similar_users : series F)
           (target_user : Z) (candidates : list (Z * string)) : dict string F :=
  fold_left
    (fun d mv =>
       if neb (similarity_sum ratings similar_users (fst mv)) zero
       then dict_set String.eqb (snd mv)
                     (predicted_rating ratings similar_users target_user (fst mv)) d
       else d)
    candidates [].

(* ---------------------------------------------------------------- *)
(** ** recommend_movies *)

(** [sorted(predictions.items(), key=lambda x: x[1], reverse=True)[:n]].
    Python's sort is stable, also under [reverse=True], and compares
    keys with [<] only; on keys that [<] orders totally (no NaN) a
    stable sort has one possible result, the one computed here. *)
Definition recommend_movies (predictions : dict string F) (n : Z) : list (string * F) :=
  slice_to n (sort_desc snd predictions).

(* ---------------------------------------------------------------- *)
(** ** The user-item matrix *)

(** Ascending insertion without repetition: the sorted distinct labels
    of a pivot table. *)
Fixpoint insert_label (x : Z) (l : list Z) : list Z :=
  match l with
  | [] => [x]
  | y :: l' =>
      if (x <? y)%Z then x :: y :: l'
      else if (x =? y)%Z then y :: l'
      else y :: insert_label x l'
  end.

Definition sorted_unique (l : list Z) : list Z := fold_right insert_label [] l.

(** The aggregated cell of a (user, movie) group: the mean of the
    group's ratings ([aggfunc] defaults to the mean); a group whose mean
    is NaN is dropped ([dropna=True]). *)
Definition agg_cell (ratings : list (row F)) (u m : Z) : option F :=
  match filter (fun r => (userId r =? u)%Z && (movieId r =? m)%Z) ratings with
  | [] => None
  | g => let v := mean (map rating g) in if isna v then None else Some v
  end.

Definition kept (ratings : list (row F)) (r : row F) : bool :=
  match agg_cell ratings (userId r) (movieId r) with
  | Some _ => true
  | None => false
  end.

(** [ratings.pivot_table(index='userId', columns='movieId',
    values='rating').fillna(0)]. *)
Definition user_movie_matrix (ratings : list (row F)) : frame F :=
  let groups := filter (kept ratings) ratings in
  let users := sorted_unique (map userId groups) in
  let movies := sorted_unique (map movieId groups) in
  Frame users movies
        (map (fun u =>
                map (fun m => match agg_cell ratings u m with
                              | Some v => v
                              | None => zero
                              end) movies)
             users).

(* ---------------------------------------------------------------- *)
(** ** numpy: corrcoef, fill_diagonal *)

(** What [np.corrcoef] returns: a 0-d array for a single variable, a
    square matrix otherwise. *)
Inductive ndarray : Type :=
| Arr0 (x : F)
| Arr2 (m : list (list F)).

Definition dot (x y : list F) : F :=
  total (map (fun p => fst p * snd p) (combine x y)).

(** [X -= X.mean(axis=1)[:, None]]. *)
Definition center (x : list F) : list F :=
  let avg := total x / of_int (Z.of_nat (length x)) in
  map (fun v => v - avg) x.

(** [fact] of [np.cov]: the number of observations less [ddof = 1], at
    least 0. *)
Definition fact_of (X : list (list F)) : F :=
  of_int (Z.max 0 (Z.of_nat (match X with [] => 0%nat | r :: _ => length r end) - 1)).

(** [np.cov(X)], [ddof=1]: [dot(X, X.T) * (1 / fact)] on the centred
    rows. *)
Definition cov (X : list (list F)) : list (list F) :=
  let fact := fact_of X in
  let Xc := map center X in
  map (fun xi => map (fun xj => dot xi xj * (one / fact)) Xc) Xc.

(** [np.clip(c, -1, 1)]; NaN passes through. *)
Definition clip (x : F) : F :=
  if isna x then x
  else if x <? of_int (-1) then of_int (-1)
  else if one <? x then one
  else x.

Definition diag (c : list (list F)) : list F :=
  map (fun p => nth (fst p) (snd p) zero) (combine (seq 0 (length c)) c).

(** The second half of [np.corrcoef]: [stddev = sqrt(diag(c))],
    [c /= stddev[:, None]], [c /= stddev[None, :]], then the clip. *)
Definition correlate (c : list (list F)) : list (list F) :=
  let stddev := map sqrt (diag c) in
  map (fun p =>
         map (fun q => clip ((snd q / fst p) / fst q))
             (combine stddev (snd p)))
      (combine stddev c).

(** [np.corrcoef(X)].  For a single variable [cov] is a 0-d array,
    [diag] raises and the function returns [c / c]. *)
Definition corrcoef (X : list (list F)) : ndarray :=
  match X with
  | [] => Arr2 []
  | [_] => match cov X with
           | [[c]] => Arr0 (c / c)
           | _ => Arr2 []
           end
  | _ => Arr2 (correlate (cov X))
  end.

(** Entry [i][j] of a matrix. *)
Definition entry (M : list (list F)) (i j : nat) : F := nth j (nth i M []) zero.

Fixpoint set_nth (i : nat) (v : F) (l : list F) : list F :=
  match l, i with
  | [], _ => []
  | _ :: l', O => v :: l'
  | x :: l', S i' => x :: set_nth i' v l'
  end.

(** [np.fill_diagonal(a, v)]: needs at least two dimensions. *)
Definition fill_diagonal (a : ndarray) (v : F) : result (list (list F)) :=
  match a with
  | Arr0 _ => Raise ValueError
  | Arr2 m => Ok (map (fun p => set_nth (fst p) v (snd p)) (combine (seq 0 (length m)) m))
  end.

(* ---------------------------------------------------------------- *)
(** ** pearson_similarity_matrix *)

(** The function also writes the matrix to [pearsonCorrelationMatrix.csv];
    the file plays no part in the value returned. *)
Definition pearson_similarity_matrix (ratings : list (row F)) : result (frame F) :=
  let umm := user_movie_matrix ratings in
  correlation_matrix <- fill_diagonal (corrcoef (values umm)) zero ;;
  Ok (Frame (index umm) (index umm) correlation_matrix).

(* ---------------------------------------------------------------- *)
(** ** sklearn: cosine_similarity *)

(** A finite cell: [x - x] is a number. *)
Definition isfinite (x : F) : bool := negb (isna (x - x)).

(** [normalize(X)]: each row divided by its Euclidean norm, a zero norm
    being replaced by 1. *)
Definition normalize_row (x : list F) : list F :=
  let norm := sqrt (dot x x) in
  let norm' := if norm == zero then one else norm in
  map (fun v => v / norm') x.

(** [cosine_similarity(X)]: input validation ([check_array] refuses an
    empty array and non-finite cells), then the dot products of the
    normalised rows. *)
Definition cosine_similarity (X : list (list F)) : result (list (list F)) :=
  match X with
  | [] => Raise ValueError
  | _ =>
      if forallb (forallb isfinite) X
      then let Xn := map normalize_row X in
           Ok (map (fun xi => map (fun xj => dot xi xj) Xn) Xn)
      else Raise ValueError
  end.

(* ---------------------------------------------------------------- *)
(** ** cosine_similarity_matrix *)

Definition cosine_similarity_matrix (ratings : list (row F)) : result (frame F) :=
  let umm := user_movie_matrix ratings in
  similarity_matrix <- cosine_similarity (values umm) ;;
  similarity_matrix <- fill_diagonal (Arr2 similarity_matrix) zero ;;
  Ok (Frame (index umm) (index umm) similarity_matrix).

(* ---------------------------------------------------------------- *)
(** ** Notions used to state the properties *)

(** Descending by [key]: no entry is smaller than a later one. *)
Definition descending {A} (key : A -> F) : list A -> Prop :=
  StronglySorted (fun a b => (key a <? key b) = false).

(** NaN values last: no number stands after a NaN. *)
Definition nan_last {A} (key : A -> F) : list A -> Prop :=
  StronglySorted (fun a b => isna (key a) = true -> isna (key b) = true).

(** Every result that [Series.sort_values(ascending=False)] may give with
    the default, unstable [kind]: the non-NaN entries rearranged into
    descending order of value, entries of equal value in any order, then
    the NaN entries in their original order. *)
Definition sort_values_outcome (s out : series F) : Prop :=
  exists sorted,
    Permutation sorted (filter (fun e => negb (isna (snd e))) s) /\
    descending snd sorted /\
    out = sorted ++ filter (fun e => isna (snd e)) s.

(** Every Neighborhood that [get_top_similar_users] may return. *)
Definition top_similar_users_outcome (similarity_df : frame F) (target_user n : Z)
           (nb : series F) : Prop :=
  exists col out,
    getitem similarity_df target_user = Ok col /\
    sort_values_outcome col out /\
    nb = slice_to n out.

(** One turn of the inner loop, without the lookups. *)
Definition accumulate_pure (ratings : list (row F)) (m : Z) (sums : F * F) (e : Z * F) : F * F :=
  match rating_of ratings (fst e) m with
  | Some r => (fst sums + snd e * (r - mean_rating ratings (fst e)), snd sums + snd e)
  | None => sums
  end.

(** A square matrix of side [n]. *)
Definition square (n : nat) (M : list (list F)) : Prop :=
  length M = n /\ Forall (fun r => length r = n) M.

(** A matrix as the similarity functions return it: rows and columns
    labelled alike, each label once, square, with a zero diagonal. *)
Definition similarity_frame (df : frame F) : Prop :=
  columns df = index df /\ NoDup (index df) /\
  square (length (index df)) (values df) /\
  forall i, (i < length (index df))%nat -> entry (values df) i i = zero.

(** The line of the ratings file that a merged row comes from. *)
Definition rating_line (r : row F) : Z * Z * F := (userId r, movieId r, rating r).

End Program.

(* ================================================================== *)
(** * Example data *)

(** Three users; user 2 is negatively correlated with user 1. *)
Definition ex_sim : frame float :=
  Frame [1; 2; 3]%Z [1; 2; 3]%Z
        [ [0; (-0.5); 0.25]; [(-0.5); 0; 0.125]; [0.25; 0.125; 0] ]%float.

(** Five users; users 2 to 5 gave the same single rating, user 1 shares
    that movie with them. *)
Definition twin_ratings : list (row float) :=
  [ Row 1 10 4%float "a"; Row 1 20 3%float "b";
    Row 2 10 5%float "a"; Row 3 10 5%float "a";
    Row 4 10 5%float "a"; Row 5 10 5%float "a" ]%Z.

(** The example of the specification: target user 1 rated item 1 with 5
    and item 2 with 3; user 2, of similarity 0.8, rated item 1 with 4 and
    item 3 with 5 (mean 4.5). *)
Definition spec_ratings : list (row float) :=
  [ Row 1 1 5%float "item1"; Row 1 2 3%float "item2";
    Row 2 1 4%float "item1"; Row 2 3 5%float "item3" ]%Z.

Definition spec_similarity : frame float :=
  Frame [1; 2]%Z [1; 2]%Z [ [0; 0.8]; [0.8; 0] ]%float.

(** User 1 gave every movie the same rating: its zero-filled vector
    (3, 3) has zero variance. *)
Definition flat_ratings : list (row float) :=
  [ Row 1 10 3%float "a"; Row 1 20 3%float "b";
    Row 2 10 4%float "a"; Row 2 20 2%float "b" ]%Z.

(** Two movies of one title: movieIds 838 and 26958 are both
    "Emma (1996)". *)
Definition emma_ratings : list (row float) :=
  [ Row 1 1 4%float "Toy Story (1995)";
    Row 2 838 5%float "Emma (1996)";
    Row 2 26958 1%float "Emma (1996)" ]%Z.

(** The target user 1 has rated one "Emma (1996)", user 2 the other. *)
Definition emma_seen_ratings : list (row float) :=
  [ Row 1 838 4%float "Emma (1996)";
    Row 2 838 5%float "Emma (1996)";
    Row 2 26958 1%float "Emma (1996)" ]%Z.

Definition half_sim : frame float :=
  Frame [1; 2]%Z [1; 2]%Z [ [0; 0.5]; [0.5; 0] ]%float.

(** User 3 is in the similarity matrix and has no rating. *)
Definition silent_ratings : list (row float) :=
  [ Row 1 1 4%float "item1"; Row 2 1 5%float "item1"; Row 2 2 3%float "item2" ]%Z.

(** Ratings over the reals. *)
Definition real_ratings : list (row R) :=
  [ Row 1 10 3%R "a"; Row 1 20 1%R "b"; Row 2 10 4%R "a"; Row 2 20 2%R "b" ]%Z.

(** Two users and four movies, every rating a multiple of 0.5: the means,
    the deviations and their products are exact in binary64, whatever the
    order of summation. *)
Definition round_ratings : list (row float) :=
  [ Row 1 10 3%float "a"; Row 1 20 3%float "b";
    Row 1 30 5%float "c"; Row 1 40 1%float "d";
    Row 2 10 2.5%float "a"; Row 2 20 4%float "b";
    Row 2 30 5%float "c"; Row 2 40 2.5%float "d" ]%Z.

(** A similarity matrix that holds a NaN for user 3, as
    [pearson_similarity_matrix] returns for a user of zero variance, and
    ratings in which movie B is rated by user 3 alone. *)
Definition nan_sim : frame float :=
  Frame [1; 2; 3]%Z [1; 2; 3]%Z
        [ [0; 0.5; nan]; [0.5; 0; nan]; [nan; nan; 0] ]%float.

Definition nan_ratings : list (row float) :=
  [ Row 1 10 4%float "T"; Row 2 1 2%float "A";
    Row 3 2 5%float "B"; Row 2 3 4%float "C" ]%Z.

(** The PredictionSet of user 1 for them: a NaN between two numbers. *)
Definition nan_predictions : dict string float :=
  [ ("A"%string, 3%float); ("B"%string, nan); ("C"%string, 5%float) ].

(** User 2 is the only neighbour of user 1 to have rated movie 20. *)
Definition sole_ratings : list (row float) :=
  [ Row 1 10 4%float "a"; Row 2 10 3%float "a"; Row 2 20 5%float "b" ]%Z.

(** The ratings of user 2 are missing (NaN, as [read_csv] reads an empty
    field). *)
Definition missing_ratings : list (row float) :=
  [ Row 1 10 4%float "a"; Row 2 10 nan "a"; Row 2 20 nan "b";
    Row 3 10 3%float "a"; Row 3 20 5%float "b" ]%Z.

(** The two tables of the CSV files; movie 30 is in no row of the movies. *)
Definition csv_ratings : list (Z * Z * float) :=
  [ (1, 10, 4%float); (1, 30, 2%float); (2, 20, 5%float) ]%Z.

Definition csv_movies : list (Z * string) :=
  [ (10%Z, "a"%string); (20%Z, "b"%string) ].

(** The ratings of a single user. *)
Definition lone_ratings : list (row float) :=
  [ Row 7 10 4%float "a"; Row 7 20 2%float "b" ]%Z.

Definition tied_predictions : dict string float :=
  [ ("a"%string, 1.5%float); ("b"%string, 4%float); ("c"%string, 1.5%float) ].

Definition three_predictions : dict string float :=
  [ ("a"%string, 1.5%float); ("b"%string, 4%float); ("c"%string, 2.5%float) ].

(* ================================================================== *)
(** * Notions on IEEE floats *)

(** A non-NaN float as a point of Z^3 ordered lexicographically. *)
Definition float_key (f : spec_float) : Z * Z * Z :=
  match f with
  | S754_nan => (0, 0, 0)
  | S754_zero _ => (0, 0, 0)
  | S754_infinity true => (-2, 0, 0)
  | S754_infinity false => (2, 0, 0)
  | S754_finite true m e => (-1, - e, - Zpos m)
  | S754_finite false m e => (1, e, Zpos m)
  end%Z.

Definition float_lexlt (a b : Z * Z * Z) : Prop :=
  let '(c1, e1, m1) := a in
  let '(c2, e2, m2) := b in
  (c1 < c2 \/ (c1 = c2 /\ (e1 < e2 \/ (e1 = e2 /\ m1 < m2))))%Z.

(** A float that is +0, -0 or NaN. *)
Definition zero_or_nan (x : float) : Prop :=
  match Prim2SF x with
  | S754_zero _ | S754_nan => True
  | _ => False
  end.

(** Two floats that are the same value, or two zeros (of any sign). *)
Definition same_number (v v' : float) : Prop :=
  v' = v \/ (PrimFloat.eqb v 0 = true /\ PrimFloat.eqb v' 0 = true).

(** Two lookups in a PredictionSet that agree: both without an entry, or
    both with the same number. *)
Definition same_entry (o o' : option float) : Prop :=
  match o, o' with
  | None, None => True
  | Some v, Some v' => same_number v v'
  | _, _ => False
  end.

(* ================================================================== *)
(** * Laws of the arithmetic *)

(** ** The real numbers *)

Lemma Rltb_true (x y : R) : Rltb x y = true <-> (x < y)%R.
Proof. unfold Rltb. destruct (Rlt_dec x y); split; intros; auto; discriminate. Qed.

Lemma Rltb_false (x y : R) : Rltb x y = false <-> (y <= x)%R.
Proof.
  unfold Rltb. destruct (Rlt_dec x y); split; intros; try discriminate; auto; lra.
Qed.

Lemma R_isna (x : R) : isna x = false.
Proof.
  unfold isna; simpl; unfold Reqb. destruct (Req_dec_T x x); [reflexivity | congruence].
Qed.

Lemma R_order : OrderLaws R.
Proof.
  split; simpl.
  - intros x y H. apply Rltb_true in H. apply Rltb_false. lra.
  - intros x y z _ H1 H2. apply Rltb_false in H1, H2. apply Rltb_false. lra.
  - intros x y H. rewrite R_isna in H. discriminate.
  - intros x y H. rewrite R_isna in H. discriminate.
Qed.

Lemma R_mul_comm : MulComm R.
Proof. intros x y. apply Rmult_comm. Qed.

Lemma R_div_swap : DivSwap R.
Proof.
  intros x y z. simpl. unfold Rdiv. rewrite !Rmult_assoc. f_equal. apply Rmult_comm.
Qed.

(** ** IEEE binary64 *)

Module FloatOrder.

Lemma SFltb_lexlt (a b : spec_float) :
  a <> S754_nan -> b <> S754_nan ->
  (SFltb a b = true <-> float_lexlt (float_key a) (float_key b)).
Proof.
  intros Ha Hb. unfold SFltb.
  destruct a as [sa|sa| |sa ma ea], b as [sb|sb| |sb mb eb]; try congruence;
    try destruct sa; try destruct sb; cbn [SFcompare float_key float_lexlt];
    try (split; [discriminate | lia]); try (split; [lia | reflexivity]).
  - fold (Pos.compare ma mb).
    destruct (Z.compare_spec ea eb); cbn;
      try destruct (Pos.compare_spec ma mb); cbn;
      split; intros; try discriminate; try reflexivity; try lia.
  - fold (Pos.compare ma mb).
    destruct (Z.compare_spec ea eb); cbn;
      try destruct (Pos.compare_spec ma mb); cbn;
      split; intros; try discriminate; try reflexivity; try lia.
Qed.

Lemma SFeqb_refl (a : spec_float) : a <> S754_nan -> SFeqb a a = true.
Proof.
  intros Ha. unfold SFeqb.
  destruct a as [sa|sa| |sa ma ea]; try congruence; try destruct sa; cbn;
    try reflexivity; fold (Pos.compare ma ma);
    (destruct (Z.compare_spec ea ea); [ | lia | lia ]);
    (destruct (Pos.compare_spec ma ma); [ reflexivity | lia | lia ]).
Qed.

Lemma isna_spec (x : float) : isna x = true <-> Prim2SF x = S754_nan.
Proof.
  unfold isna; simpl. rewrite FloatAxioms.eqb_spec. split.
  - intros H. destruct (Prim2SF x) eqn:E; try reflexivity;
      rewrite SFeqb_refl in H by congruence; discriminate.
  - intros ->. reflexivity.
Qed.

Lemma isna_false (x : float) : isna x = false <-> Prim2SF x <> S754_nan.
Proof.
  rewrite <- isna_spec. destruct (isna x); split; congruence.
Qed.

Lemma ltb_nan (x y : float) :
  Prim2SF x = S754_nan \/ Prim2SF y = S754_nan -> PrimFloat.ltb x y = false.
Proof.
  rewrite FloatAxioms.ltb_spec. unfold SFltb.
  intros [-> | ->]; [reflexivity | destruct (Prim2SF x); reflexivity].
Qed.

Lemma ltb_lexlt (x y : float) :
  Prim2SF x <> S754_nan -> Prim2SF y <> S754_nan ->
  (PrimFloat.ltb x y = true <-> float_lexlt (float_key (Prim2SF x)) (float_key (Prim2SF y))).
Proof. intros. rewrite FloatAxioms.ltb_spec. now apply SFltb_lexlt. Qed.

End FloatOrder.

Lemma float_order : OrderLaws float.
Proof.
  split; simpl.
  - intros x y H.
    destruct (isna x) eqn:Hx.
    { apply FloatOrder.isna_spec in Hx. rewrite FloatOrder.ltb_nan in H by auto. discriminate. }
    destruct (isna y) eqn:Hy.
    { apply FloatOrder.isna_spec in Hy. rewrite FloatOrder.ltb_nan in H by auto. discriminate. }
    apply FloatOrder.isna_false in Hx, Hy.
    apply FloatOrder.ltb_lexlt in H; auto.
    apply not_true_is_false. intros H'. apply FloatOrder.ltb_lexlt in H'; auto.
    unfold float_lexlt in *.
    destruct (float_key (Prim2SF x)) as [[? ?] ?],
             (float_key (Prim2SF y)) as [[? ?] ?]. lia.
  - intros x y z Hy H1 H2.
    destruct (isna x) eqn:Hx.
    { apply FloatOrder.isna_spec in Hx. apply FloatOrder.ltb_nan; auto. }
    destruct (isna z) eqn:Hz.
    { apply FloatOrder.isna_spec in Hz. apply FloatOrder.ltb_nan; auto. }
    apply FloatOrder.isna_false in Hx, Hy, Hz.
    apply not_true_is_false. intros H'. apply FloatOrder.ltb_lexlt in H'; auto.
    assert (N1 : ~ float_lexlt (float_key (Prim2SF x)) (float_key (Prim2SF y))).
    { intros C. apply FloatOrder.ltb_lexlt in C; auto. congruence. }
    assert (N2 : ~ float_lexlt (float_key (Prim2SF y)) (float_key (Prim2SF z))).
    { intros C. apply FloatOrder.ltb_lexlt in C; auto. congruence. }
    unfold float_lexlt in *.
    destruct (float_key (Prim2SF x)) as [[? ?] ?],
             (float_key (Prim2SF y)) as [[? ?] ?],
             (float_key (Prim2SF z)) as [[? ?] ?]. lia.
  - intros x y H. apply FloatOrder.isna_spec in H. apply FloatOrder.ltb_nan; auto.
  - intros x y H. apply FloatOrder.isna_spec in H. apply FloatOrder.ltb_nan; auto.
Qed.

(* ================================================================== *)
(** * Lists, slices and dicts *)

Lemma slice_to_nonneg {A} (n : Z) (l : list A) :
  (0 <= n)%Z -> slice_to n l = firstn (Z.to_nat n) l.
Proof. intros H. unfold slice_to. apply Z.leb_le in H. now rewrite H. Qed.

Lemma slice_to_neg {A} (n : Z) (l : list A) :
  (n < 0)%Z -> slice_to n l = firstn (length l - Z.to_nat (- n)) l.
Proof. intros H. unfold slice_to. apply Z.leb_gt in H. now rewrite H. Qed.

Lemma slice_to_prefix {A} (n : Z) (l : list A) :
  exists m, slice_to n l = firstn m l.
Proof. unfold slice_to. destruct (0 <=? n)%Z; eauto. Qed.

Lemma filter_split_perm {A} (f : A -> bool) (l : list A) :
  Permutation (filter (fun x => negb (f x)) l ++ filter f l) l.
Proof.
  induction l as [|x l IH]; simpl; [constructor|].
  destruct (f x); simpl.
  - apply Permutation_sym, Permutation_cons_app, Permutation_sym, IH.
  - now constructor.
Qed.

Lemma in_firstn {A} (m : nat) (l : list A) (x : A) :
  In x (firstn m l) -> In x l.
Proof.
  intros H. rewrite <- (firstn_skipn m l). apply in_or_app. now left.
Qed.

Lemma StronglySorted_firstn {A} (R : A -> A -> Prop) (m : nat) (l : list A) :
  StronglySorted R l -> StronglySorted R (firstn m l).
Proof.
  intros H. revert m. induction H as [|x l Hs IH Hx]; intros [|m]; simpl;
    try constructor; auto.
  apply Forall_forall. intros y Hy. rewrite Forall_forall in Hx.
  apply Hx. eapply in_firstn; eauto.
Qed.

Lemma StronglySorted_after {A} (R : A -> A -> Prop) (l1 l2 : list A) (x : A) :
  StronglySorted R (l1 ++ x :: l2) -> Forall (R x) l2.
Proof.
  induction l1 as [|y l1 IH]; simpl; intros H; inversion H; subst; auto.
Qed.

Lemma positions_unique (t : Z) (l : list Z) (i : nat) :
  In t l -> NoDup l -> exists p, positions t l i = [p].
Proof.
  revert i. induction l as [|x l IH]; simpl; intros i Hin Hnd; [contradiction|].
  inversion Hnd as [|? ? Hx Hl]; subst.
  destruct (Z.eqb_spec x t) as [->|Hne].
  - exists i. f_equal.
    assert (G : forall j, positions t l j = []).
    { clear IH Hin Hnd Hl. induction l as [|y l IHl]; intros j; simpl; auto.
      destruct (Z.eqb_spec y t) as [->|]; [exfalso; apply Hx; now left|].
      apply IHl. intros C. apply Hx. now right. }
    apply G.
  - destruct Hin as [->|Hin]; [congruence|]. now apply IH.
Qed.

Lemma positions_absent (t : Z) (l : list Z) (i : nat) :
  ~ In t l -> positions t l i = [].
Proof.
  revert i. induction l as [|x l IH]; simpl; intros i H; auto.
  destruct (Z.eqb_spec x t) as [->|]; [exfalso; apply H; now left|].
  apply IH. intros C. apply H. now right.
Qed.

(* ================================================================== *)
(** * Sorting *)

Section SortFacts.
Context {F : Type} {N : PyNum F} {L : OrderLaws F}.
Context {A : Type} (key : A -> F).

Lemma insert_desc_perm (x : A) (l : list A) :
  Permutation (insert_desc key x l) (x :: l).
Proof.
  induction l as [|y l IH]; simpl; auto.
  destruct (key x <? key y)%num; auto.
  rewrite IH. apply perm_swap.
Qed.

Lemma sort_desc_perm (l : list A) : Permutation (sort_desc key l) l.
Proof.
  induction l as [|x l IH]; simpl; auto.
  rewrite insert_desc_perm. now constructor.
Qed.

Lemma insert_desc_descending (x : A) (l : list A) :
  Forall (fun a => isna (key a) = false) l ->
  descending key l -> descending key (insert_desc key x l).
Proof.
  unfold descending. intros Hn Hs. induction Hs as [|y l Hs IH Hy]; simpl.
  - repeat constructor.
  - inversion Hn as [|? ? Hny Hnl]; subst.
    destruct (key x <? key y)%num eqn:E.
    + constructor; auto.
      apply Forall_forall. intros z Hz.
      apply (Permutation_in _ (insert_desc_perm x l)) in Hz.
      destruct Hz as [<-|Hz].
      * now apply ltb_asym.
      * rewrite Forall_forall in Hy. now apply Hy.
    + constructor; [now constructor|].
      constructor; auto.
      apply Forall_forall. intros z Hz. rewrite Forall_forall in Hy.
      apply ltb_negtrans with (y := key y); auto.
Qed.

Lemma sort_desc_descending (l : list A) :
  Forall (fun a => isna (key a) = false) l -> descending key (sort_desc key l).
Proof.
  induction l as [|x l IH]; simpl; intros H.
  - constructor.
  - inversion H; subst. apply insert_desc_descending; auto.
    apply Forall_forall. intros a Ha.
    apply (Permutation_in _ (sort_desc_perm l)) in Ha.
    rewrite Forall_forall in H3. now apply H3.
Qed.

Lemma descending_app_nan (l1 l2 : list A) :
  descending key l1 -> Forall (fun a => isna (key a) = true) l2 ->
  descending key (l1 ++ l2).
Proof.
  unfold descending. intros H1 H2. induction H1 as [|x l Hs IH Hx]; simpl.
  - induction H2 as [|y l2 Hy H2 IH2]; constructor; auto.
    apply Forall_forall. intros z _. now apply ltb_nan_l.
  - constructor; auto. apply Forall_app. split; auto.
    apply Forall_forall. intros z Hz. rewrite Forall_forall in H2.
    apply ltb_nan_r. now apply H2.
Qed.
End SortFacts.

Section SortValues.
Context {F : Type} {N : PyNum F}.

Lemma sort_values_desc_perm (s : series F) : Permutation (sort_values_desc s) s.
Proof.
  unfold sort_values_desc.
  rewrite (sort_desc_perm snd). apply (filter_split_perm (fun e => isna (snd e))).
Qed.

Lemma sort_values_desc_descending {L : OrderLaws F} (s : series F) :
  descending snd (sort_values_desc s).
Proof.
  unfold sort_values_desc. apply descending_app_nan.
  - apply sort_desc_descending. apply Forall_forall. intros a Ha.
    apply filter_In in Ha. destruct Ha as [_ Ha]. now apply negb_true_iff in Ha.
  - apply Forall_forall. intros a Ha. apply filter_In in Ha. tauto.
Qed.

Lemma get_top_similar_users_inv (df : frame F) (t n : Z) (nb : series F) :
  get_top_similar_users df t n = Ok nb ->
  exists col, getitem df t = Ok col /\ nb = slice_to n (sort_values_desc col).
Proof.
  unfold get_top_similar_users. destruct (getitem df t) as [col|e]; simpl; intros H.
  - exists col. split; congruence.
  - discriminate.
Qed.

(** A target user that labels exactly one column is found. *)
Lemma getitem_present (df : frame F) (t : Z) :
  In t (columns df) -> NoDup (columns df) -> exists col, getitem df t = Ok col.
Proof.
  intros Hin Hnd. unfold getitem.
  destruct (positions_unique t (columns df) 0%nat Hin Hnd) as [p ->]. eauto.
Qed.

Lemma getitem_absent (df : frame F) (t : Z) :
  ~ In t (columns df) -> getitem df t = Raise KeyError.
Proof. intros H. unfold getitem. now rewrite positions_absent. Qed.
End SortValues.

Lemma filter_length_perm {A} (f : A -> bool) (l l' : list A) :
  Permutation l l' -> length (filter f l) = length (filter f l').
Proof.
  induction 1 as [|x l l' _ IH|x y l|l l' l'' _ IH1 _ IH2]; simpl; auto.
  - destruct (f x); simpl; auto.
  - destruct (f x), (f y); simpl; auto.
  - congruence.
Qed.

Lemma filter_none {A} (f : A -> bool) (l : list A) :
  Forall (fun x => f x = false) l -> filter f l = [].
Proof.
  induction 1 as [|x l Hx _ IH]; simpl; auto. now rewrite Hx.
Qed.

Lemma filter_length_le {A} (f : A -> bool) (l : list A) :
  (length (filter f l) <= length l)%nat.
Proof.
  induction l as [|x l IH]; simpl; auto. destruct (f x); simpl; lia.
Qed.

Lemma NoDup_map_fst_inj {A B} (l : list (A * B)) (a : A) (b b' : B) :
  NoDup (map fst l) -> In (a, b) l -> In (a, b') l -> b = b'.
Proof.
  induction l as [|[x y] l IH]; simpl; intros Hnd H1 H2; [contradiction|].
  inversion Hnd as [|? ? Hx Hl]; subst.
  destruct H1 as [E1|H1], H2 as [E2|H2].
  - congruence.
  - inversion E1; subst. exfalso. apply Hx. apply in_map_iff. now exists (a, b').
  - inversion E2; subst. exfalso. apply Hx. apply in_map_iff. now exists (a, b).
  - now apply IH.
Qed.

(* ================================================================== *)
(** * Properties of get_top_similar_users *)

Section Neighbourhood.
Context {F : Type} {N : PyNum F}.

(** In a descending list, the entries strictly greater than an entry of
    the first [m] all stand before it: there are fewer than [m]. *)
Lemma greater_before {L : OrderLaws F} (l : series F) (m : nat) (x : Z * F) :
  descending snd l -> In x (firstn m l) ->
  (length (filter (fun e => (snd x <? snd e)%num) l) < m)%nat.
Proof.
  intros Hs Hin.
  destruct (in_split _ _ Hin) as (l1 & l2 & E).
  assert (El : l = l1 ++ x :: (l2 ++ skipn m l)).
  { rewrite <- (firstn_skipn m l) at 1. rewrite E, <- app_assoc. reflexivity. }
  assert (Hlen : (length l1 + 1 + length l2 <= m)%nat).
  { pose proof (firstn_le_length m l) as Hm. rewrite E in Hm.
    rewrite length_app in Hm. simpl in Hm.
    assert (length (firstn m l) <= m)%nat.
    { rewrite length_firstn. lia. }
    rewrite E, length_app in H. simpl in H. lia. }
  unfold descending in Hs. rewrite El in Hs.
  apply StronglySorted_after in Hs.
  rewrite El, filter_app. simpl.
  assert (Hx : (snd x <? snd x)%num = false).
  { destruct (snd x <? snd x)%num eqn:E'; auto.
    pose proof (ltb_asym _ _ E'). congruence. }
  rewrite Hx, (filter_none _ _ Hs), app_nil_r.
  pose proof (filter_length_le (fun e => (snd x <? snd e)%num) l1). lia.
Qed.
End Neighbourhood.

(* ------------------------------------------------------------------ *)
(** ** Size of the neighbourhood *)

(** C7, as the code has it.  For a target user that labels one column of
    the similarity matrix, [get_top_similar_users] returns a neighbourhood;
    for [0 <= k] it has [min k (number of users)] entries, so at most [k],
    and none for [k = 0]; for [k < 0] the slice [[0:k]] drops the last
    [-k] entries of the sorted column instead of returning nothing. *)
Theorem top_similar_users_size :
  forall (F : Type) (N : PyNum F) (df : frame F) (t k : Z),
    In t (columns df) -> NoDup (columns df) ->
    exists col nb,
      getitem df t = Ok col /\
      get_top_similar_users df t k = Ok nb /\
      ((0 <= k)%Z ->
       length nb = Nat.min (Z.to_nat k) (length col) /\
       (Z.of_nat (length nb) <= k)%Z) /\
      (k = 0%Z -> nb = []) /\
      ((k < 0)%Z -> length nb = (length col - Z.to_nat (- k))%nat).
Proof.
  intros F N df t k Hin Hnd.
  destruct (getitem_present df t Hin Hnd) as [col Hcol].
  exists col, (slice_to k (sort_values_desc col)).
  assert (Hlen : length (sort_values_desc col) = length col)
    by apply Permutation_length, sort_values_desc_perm.
  split; [exact Hcol|]. split.
  { unfold get_top_similar_users. rewrite Hcol. reflexivity. }
  split; [|split].
  - intros Hk. rewrite slice_to_nonneg by exact Hk.
    rewrite length_firstn, Hlen. split; [reflexivity | lia].
  - intros ->. reflexivity.
  - intros Hk. rewrite slice_to_neg by exact Hk.
    rewrite length_firstn, Hlen. lia.
Qed.

Lemma top_similar_users_size_witness :
  exists col nb,
    getitem ex_sim 1 = Ok col /\
    get_top_similar_users ex_sim 1 2 = Ok nb /\
    ((0 <= 2)%Z ->
     length nb = Nat.min (Z.to_nat 2) (length col) /\
     (Z.of_nat (length nb) <= 2)%Z) /\
    (2%Z = 0%Z -> nb = []) /\
    ((2 < 0)%Z -> length nb = (length col - Z.to_nat (- 2))%nat).
Proof.
  apply (@top_similar_users_size float float_num ex_sim 1%Z 2%Z).
  - simpl. auto.
  - simpl. repeat constructor; simpl; intuition discriminate.
Defined.

(** C7 as stated fails for a negative [k]: with three users and
    [k = -1] the neighbourhood has two entries. *)
Lemma top_similar_users_negative_k :
  get_top_similar_users ex_sim 1 (-1) = Ok [(3%Z, 0.25%float); (1%Z, 0%float)].
Proof. vm_compute. reflexivity. Qed.

(* ------------------------------------------------------------------ *)
(** ** The target user and the order of the scores *)

(** C3, as the code has it.  For every target user found in the matrix
    and every [k], the scores of the neighbourhood never increase from one
    entry to a later one.  For [0 <= k] the target user is absent from the
    neighbourhood whenever at least [k] users have a score strictly
    greater than the target's own entry (which is 0 on a matrix with a
    zero diagonal). *)
Theorem top_similar_users_target_absent :
  forall (F : Type) (N : PyNum F) (L : OrderLaws F)
         (df : frame F) (t k : Z) (col : series F),
    getitem df t = Ok col ->
    exists nb,
      get_top_similar_users df t k = Ok nb /\
      descending snd nb /\
      forall s_t,
        NoDup (map fst col) ->
        In (t, s_t) col ->
        (0 <= k)%Z ->
        (k <= Z.of_nat (length (filter (fun e => (s_t <? snd e)%num) col)))%Z ->
        ~ In t (map fst nb).
Proof.
  intros F N L df t k col Hcol.
  exists (slice_to k (sort_values_desc col)).
  split; [unfold get_top_similar_users; rewrite Hcol; reflexivity|].
  split.
  - destruct (slice_to_prefix k (sort_values_desc col)) as [m ->].
    apply StronglySorted_firstn, sort_values_desc_descending.
  - intros s_t Hnd Ht Hk Hcount.
    rewrite slice_to_nonneg by exact Hk.
    intros Hin. apply in_map_iff in Hin. destruct Hin as ([u s] & Hu & Hin).
    simpl in Hu. subst u.
    assert (Hs : s = s_t).
    { apply (NoDup_map_fst_inj col t s s_t); auto.
      apply (Permutation_in _ (sort_values_desc_perm col)).
      eapply in_firstn; eauto. }
    subst s.
    pose proof (greater_before _ _ _ (sort_values_desc_descending col) Hin) as Hlt.
    simpl in Hlt.
    rewrite (filter_length_perm _ _ _ (sort_values_desc_perm col)) in Hlt. lia.
Qed.

Lemma top_similar_users_target_absent_witness :
  (exists nb,
      get_top_similar_users ex_sim 2 1 = Ok nb /\
      descending snd nb /\ ~ In 2%Z (map fst nb)) /\
  (exists nb,
      get_top_similar_users ex_sim 2 2 = Ok nb /\
      descending snd nb /\ In 2%Z (map fst nb)).
Proof.
  split.
  - destruct (top_similar_users_target_absent float float_num float_order ex_sim 2%Z 1%Z
                [(1%Z, (-0.5)%float); (2%Z, 0%float); (3%Z, 0.125%float)] eq_refl)
      as (nb & Hnb & Hd & Habs).
    exists nb. split; [exact Hnb|]. split; [exact Hd|].
    apply (Habs 0%float).
    + simpl. repeat constructor; simpl; intuition discriminate.
    + simpl. auto.
    + lia.
    + vm_compute. discriminate.
  - destruct (top_similar_users_target_absent float float_num float_order ex_sim 2%Z 2%Z
                [(1%Z, (-0.5)%float); (2%Z, 0%float); (3%Z, 0.125%float)] eq_refl)
      as (nb & Hnb & Hd & _).
    exists nb. split; [exact Hnb|]. split; [exact Hd|].
    vm_compute in Hnb. inversion Hnb. simpl. auto.
Defined.

(** C3 as stated fails: three users, [k = 2], and the target user 1 is
    the second entry of its own neighbourhood, because user 2 has a
    negative similarity. *)
Lemma top_similar_users_contains_target :
  get_top_similar_users ex_sim 1 2 = Ok [(3%Z, 0.25%float); (1%Z, 0%float)] /\
  In 1%Z (map fst [(3%Z, 0.25%float); (1%Z, 0%float)]) /\
  (length (index ex_sim) >= 2 + 1)%nat.
Proof. split; [vm_compute; reflexivity | simpl; auto]. Qed.

(* ------------------------------------------------------------------ *)
(** ** Order of equal scores *)

Section Outcomes.
Context {F : Type} {N : PyNum F}.

Lemma nan_last_app {A} (key : A -> F) (l1 l2 : list A) :
  Forall (fun a => isna (key a) = false) l1 ->
  Forall (fun a => isna (key a) = true) l2 ->
  nan_last key (l1 ++ l2).
Proof.
  unfold nan_last. intros H1 H2. induction H1 as [|x l1 Hx _ IH]; simpl.
  - induction H2 as [|y l2 Hy H2 IH2]; constructor; auto.
    apply Forall_forall. intros z Hz _. rewrite Forall_forall in H2. now apply H2.
  - constructor; auto. apply Forall_forall. intros z _ C. congruence.
Qed.

Lemma StronglySorted_across {A} (R : A -> A -> Prop) (l1 l2 : list A) (a b : A) :
  StronglySorted R (l1 ++ l2) -> In a l1 -> In b l2 -> R a b.
Proof.
  intros Hs Ha Hb. destruct (in_split _ _ Ha) as (p & q & ->).
  rewrite <- app_assoc in Hs. simpl in Hs.
  apply StronglySorted_after in Hs. rewrite Forall_forall in Hs.
  apply Hs. apply in_or_app. now right.
Qed.

Lemma sort_values_outcome_perm (s out : series F) :
  sort_values_outcome s out -> Permutation out s.
Proof.
  intros (sorted & Hp & _ & ->). rewrite Hp.
  apply (filter_split_perm (fun e => isna (snd e))).
Qed.

Lemma sort_values_outcome_descending {L : OrderLaws F} (s out : series F) :
  sort_values_outcome s out -> descending snd out.
Proof.
  intros (sorted & _ & Hd & ->). apply descending_app_nan; auto.
  apply Forall_forall. intros a Ha. apply filter_In in Ha. tauto.
Qed.

Lemma sort_values_outcome_nan_last (s out : series F) :
  sort_values_outcome s out -> nan_last snd out.
Proof.
  intros (sorted & Hp & _ & ->). apply nan_last_app.
  - apply Forall_forall. intros a Ha. apply (Permutation_in _ Hp) in Ha.
    apply filter_In in Ha. destruct Ha as [_ Ha]. now apply negb_true_iff in Ha.
  - apply Forall_forall. intros a Ha. apply filter_In in Ha. tauto.
Qed.

(** The order computed by [sort_values_desc] is one of them. *)
Lemma sort_values_desc_outcome {L : OrderLaws F} (s : series F) :
  sort_values_outcome s (sort_values_desc s).
Proof.
  exists (sort_desc snd (filter (fun e => negb (isna (snd e))) s)).
  split; [apply sort_desc_perm|]. split; [|reflexivity].
  apply sort_desc_descending. apply Forall_forall. intros a Ha.
  apply filter_In in Ha. destruct Ha as [_ Ha]. now apply negb_true_iff in Ha.
Qed.
End Outcomes.

(** C8, as the code has it.  What [get_top_similar_users] returns is one
    of the neighbourhoods that pandas' sort may give, and every one of
    them is descending by score with the NaN scores last, and is the first
    entries of a rearrangement of the target user's column: no entry left
    out has a greater score than an entry kept, and no NaN score is kept
    while a number is left out.  The score is the only sort key; nothing
    orders equal scores by userId. *)
Theorem top_similar_users_sorted :
  forall (F : Type) (N : PyNum F) (L : OrderLaws F) (df : frame F) (t k : Z),
    (forall nb, get_top_similar_users df t k = Ok nb ->
                top_similar_users_outcome df t k nb) /\
    (forall nb, top_similar_users_outcome df t k nb ->
       descending snd nb /\
       nan_last snd nb /\
       exists col rest,
         getitem df t = Ok col /\ Permutation (nb ++ rest) col /\
         forall e e', In e nb -> In e' rest ->
                      (snd e <? snd e')%num = false /\
                      (isna (snd e) = true -> isna (snd e') = true)).
Proof.
  intros F N L df t k. split.
  - intros nb Hnb. apply get_top_similar_users_inv in Hnb.
    destruct Hnb as (col & Hcol & ->).
    exists col, (sort_values_desc col). split; [exact Hcol|].
    split; [apply sort_values_desc_outcome | reflexivity].
  - intros nb (col & out & Hcol & Hout & ->).
    destruct (slice_to_prefix k out) as [m ->].
    pose proof (sort_values_outcome_descending col out Hout) as Hd.
    pose proof (sort_values_outcome_nan_last col out Hout) as Hn.
    split; [apply StronglySorted_firstn, Hd|].
    split; [apply StronglySorted_firstn, Hn|].
    exists col, (skipn m out). rewrite firstn_skipn.
    split; [exact Hcol|]. split; [apply sort_values_outcome_perm, Hout|].
    intros e e' He He'. unfold descending in Hd. unfold nan_last in Hn.
    rewrite <- (firstn_skipn m out) in Hd, Hn. split.
    + exact (StronglySorted_across _ _ _ e e' Hd He He').
    + exact (StronglySorted_across _ _ _ e e' Hn He He').
Qed.

Lemma top_similar_users_sorted_witness :
  get_top_similar_users nan_sim 1 2 = Ok [(2%Z, 0.5%float); (1%Z, 0%float)] /\
  descending snd [(2%Z, 0.5%float); (1%Z, 0%float)] /\
  nan_last snd [(2%Z, 0.5%float); (1%Z, 0%float)] /\
  exists col rest,
    getitem nan_sim 1 = Ok col /\
    Permutation ([(2%Z, 0.5%float); (1%Z, 0%float)] ++ rest) col /\
    forall e e', In e [(2%Z, 0.5%float); (1%Z, 0%float)] -> In e' rest ->
                 (snd e <? snd e')%num = false /\
                 (isna (snd e) = true -> isna (snd e') = true).
Proof.
  split; [vm_compute; reflexivity|].
  apply (proj2 (top_similar_users_sorted float float_num float_order nan_sim 1%Z 2%Z)).
  apply (proj1 (top_similar_users_sorted float float_num float_order nan_sim 1%Z 2%Z)).
  vm_compute. reflexivity.
Defined.

(** Equal scores above a last, smaller score are in descending order
    whatever their arrangement. *)
Lemma descending_ties (v w : float) (l : series float) (x : Z * float) :
  PrimFloat.ltb v v = false -> PrimFloat.ltb v w = false -> snd x = w ->
  Forall (fun e => snd e = v) l -> descending snd (l ++ [x]).
Proof.
  intros Hvv Hvw Hx H. unfold descending.
  induction H as [|e l He H IH]; simpl.
  - repeat constructor.
  - constructor; [exact IH|]. apply Forall_app. split.
    + apply Forall_forall. intros e' He'. rewrite Forall_forall in H.
      cbn [ltb float_num]. now rewrite He, (H e' He').
    + constructor; [|constructor]. cbn [ltb float_num]. now rewrite He, Hx.
Qed.

(** C8 as stated fails.  Users 2, 3, 4 and 5 have the same ratings, so
    the same cosine similarity 0.8 to user 1.  The sort sees four equal
    scores and is not stable: every arrangement of the four users is a
    neighbourhood that it may return, among them 2, 4, 3, 5, with user 4
    before user 3. *)
Lemma top_similar_users_tie_order :
  exists df,
    cosine_similarity_matrix twin_ratings = Ok df /\
    index df = [1; 2; 3; 4; 5]%Z /\
    (forall nb,
        Permutation nb [(2%Z, 0.8%float); (3%Z, 0.8%float); (4%Z, 0.8%float);
                        (5%Z, 0.8%float)] ->
        top_similar_users_outcome df 1 4 nb) /\
    top_similar_users_outcome df 1 4
      [(2%Z, 0.8%float); (4%Z, 0.8%float); (3%Z, 0.8%float); (5%Z, 0.8%float)] /\
    PrimFloat.eqb 0.8 0.8 = true /\ (3 < 4)%Z.
Proof.
  eexists. split; [vm_compute; reflexivity|]. split; [reflexivity|].
  assert (Hany : forall nb,
             Permutation nb [(2%Z, 0.8%float); (3%Z, 0.8%float); (4%Z, 0.8%float);
                             (5%Z, 0.8%float)] ->
             sort_values_outcome
               [(1%Z, 0%float); (2%Z, 0.8%float); (3%Z, 0.8%float); (4%Z, 0.8%float);
                (5%Z, 0.8%float)]
               (nb ++ [(1%Z, 0%float)]) /\
             slice_to 4 (nb ++ [(1%Z, 0%float)]) = nb).
  { intros nb Hp. split.
    - exists (nb ++ [(1%Z, 0%float)]). split; [|split].
      + vm_compute filter. rewrite Hp. apply Permutation_sym.
        apply (Permutation_cons_app _ []). rewrite app_nil_r. reflexivity.
      + apply (descending_ties 0.8 0); try reflexivity.
        apply Forall_forall. intros e He. apply (Permutation_in _ Hp) in He.
        simpl in He. destruct He as [<-|[<-|[<-|[<-|[]]]]]; reflexivity.
      + vm_compute filter. now rewrite app_nil_r.
    - rewrite slice_to_nonneg by lia.
      pose proof (Permutation_length Hp) as Hl. simpl in Hl.
      change (Z.to_nat 4) with (length [(2%Z, 0.8%float); (3%Z, 0.8%float);
                                        (4%Z, 0.8%float); (5%Z, 0.8%float)]).
      simpl length. rewrite <- Hl, firstn_app, firstn_all, Nat.sub_diag.
      simpl. apply app_nil_r. }
  assert (Hall : forall nb,
             Permutation nb [(2%Z, 0.8%float); (3%Z, 0.8%float); (4%Z, 0.8%float);
                             (5%Z, 0.8%float)] ->
             top_similar_users_outcome
               (Frame [1; 2; 3; 4; 5]%Z [1; 2; 3; 4; 5]%Z
                      [ [0; 0.8; 0.8; 0.8; 0.8]; [0.8; 0; 1; 1; 1]; [0.8; 1; 0; 1; 1];
                        [0.8; 1; 1; 0; 1]; [0.8; 1; 1; 1; 0] ]%float) 1 4 nb).
  { intros nb Hp. destruct (Hany nb Hp) as [Ho Hs].
    exists [(1%Z, 0%float); (2%Z, 0.8%float); (3%Z, 0.8%float); (4%Z, 0.8%float);
            (5%Z, 0.8%float)], (nb ++ [(1%Z, 0%float)]).
    split; [reflexivity|]. split; [exact Ho | now rewrite Hs]. }
  split; [exact Hall|].
  split; [|split; [reflexivity | lia]].
  apply Hall. constructor. apply perm_swap.
Qed.


(* ================================================================== *)
(** * Dicts *)

Section DictFacts.
Context {K V : Type} (keq : K -> K -> bool).
Hypothesis keq_eq : forall a b, keq a b = true <-> a = b.

Lemma keq_refl (a : K) : keq a a = true.
Proof. now apply keq_eq. Qed.

Lemma keq_neq (a b : K) : a <> b -> keq a b = false.
Proof.
  intros H. destruct (keq a b) eqn:E; auto. apply keq_eq in E. contradiction.
Qed.

Lemma dict_get_set (k k' : K) (v : V) (d : dict K V) :
  dict_get keq k (dict_set keq k' v d) =
  if keq k' k then Some v else dict_get keq k d.
Proof.
  induction d as [|[k0 v0] d IH]; simpl.
  - reflexivity.
  - destruct (keq k0 k') eqn:E0; simpl.
    + apply keq_eq in E0. subst k0. destruct (keq k' k); reflexivity.
    + rewrite IH. destruct (keq k0 k) eqn:E1; auto.
      apply keq_eq in E1. subst k0. now rewrite (keq_neq k' k) by
        (intros ->; rewrite keq_refl in E0; discriminate).
Qed.

Lemma dict_set_keys (k k' : K) (v : V) (d : dict K V) :
  In k (map fst (dict_set keq k' v d)) -> k = k' \/ In k (map fst d).
Proof.
  induction d as [|[k0 v0] d IH]; simpl.
  - intros [<-|[]]. now left.
  - destruct (keq k0 k'); simpl; intros [<-|H]; auto.
    destruct (IH H); auto.
Qed.

Lemma dict_set_values (P : V -> Prop) (k : K) (v : V) (d : dict K V) :
  P v -> Forall (fun e => P (snd e)) d ->
  Forall (fun e => P (snd e)) (dict_set keq k v d).
Proof.
  intros Hv Hd. induction Hd as [|[k0 v0] d H0 Hd IH]; simpl.
  - repeat constructor. exact Hv.
  - destruct (keq k0 k); constructor; auto.
Qed.

(** The last value zipped with a key is the one [dict(zip(...))] keeps. *)
Lemma dict_zip_get_from (k : K) (kvs : list (K * V)) (d : dict K V) :
  dict_get keq k (fold_left (fun d kv => dict_set keq (fst kv) (snd kv) d) kvs d) =
  match rev (filter (fun kv => keq (fst kv) k) kvs) with
  | [] => dict_get keq k d
  | kv :: _ => Some (snd kv)
  end.
Proof.
  revert d. induction kvs as [|[k0 v0] kvs IH]; intros d; simpl.
  - reflexivity.
  - rewrite IH, dict_get_set. simpl.
    destruct (keq k0 k) eqn:E; simpl.
    + destruct (rev (filter (fun kv => keq (fst kv) k) kvs)); reflexivity.
    + reflexivity.
Qed.
End DictFacts.

Lemma Zeqb_eq (a b : Z) : (a =? b)%Z = true <-> a = b.
Proof. apply Z.eqb_eq. Qed.

Lemma memZ_In (x : Z) (l : list Z) : memZ x l = true <-> In x l.
Proof.
  unfold memZ. rewrite existsb_exists. split.
  - intros (y & Hy & E). apply Z.eqb_eq in E. now subst.
  - intros H. exists x. split; auto. apply Z.eqb_refl.
Qed.

Lemma for_each_ok {A S} (body : S -> A -> result S) (step : S -> A -> S)
      (l : list A) (s : S) :
  (forall s x, In x l -> body s x = Ok (step s x)) ->
  for_each body l s = Ok (fold_left step l s).
Proof.
  revert s. induction l as [|x l IH]; intros s H; simpl.
  - reflexivity.
  - rewrite H by now left. simpl. apply IH. intros s' y Hy. apply H. now right.
Qed.

Lemma fold_left_ext_in {A S} (f g : S -> A -> S) (l : list A) (s : S) :
  (forall s x, In x l -> f s x = g s x) -> fold_left f l s = fold_left g l s.
Proof.
  revert s. induction l as [|x l IH]; intros s H; simpl; auto.
  rewrite H by now left. apply IH. intros s' y Hy. apply H. now right.
Qed.

Lemma filter_twice {A} (f g : A -> bool) (l : list A) :
  filter f (filter g l) = filter (fun x => g x && f x) l.
Proof.
  induction l as [|x l IH]; simpl; auto.
  destruct (g x); simpl; [destruct (f x)|]; now rewrite IH.
Qed.

Lemma flat_map_filter {A B} (f : A -> list B) (p : A -> bool) (l : list A) :
  (forall x, In x l -> p x = false -> f x = []) ->
  flat_map f (filter p l) = flat_map f l.
Proof.
  induction l as [|x l IH]; intros H; simpl; auto.
  destruct (p x) eqn:E; simpl.
  - f_equal. apply IH. intros y Hy. apply H. now right.
  - rewrite (H x) by (auto; now left). simpl. apply IH. intros y Hy. apply H. now right.
Qed.

(* ================================================================== *)
(** * predict_ratings computes the formula *)

Section Prediction.
Context {F : Type} {N : PyNum F}.
Local Open Scope num_scope.

Variable ratings : list (row F).

Let user_dict (u : Z) : dict Z F :=
  dict_zip Z.eqb (map movieId (get_user_ratings ratings u))
           (map rating (get_user_ratings ratings u)).

(** The dict of a user's rows answers [rating_of]. *)
Lemma user_dict_get (u m : Z) :
  dict_get Z.eqb m (user_dict u) = rating_of ratings u m.
Proof.
  unfold user_dict, dict_zip, rating_of.
  rewrite (dict_zip_get_from Z.eqb Zeqb_eq). simpl.
  induction (get_user_ratings ratings u) as [|r l IH] using rev_ind; simpl.
  - reflexivity.
  - rewrite !map_app, filter_app. simpl.
    assert (E : combine (map movieId l ++ [movieId r]) (map rating l ++ [rating r])
                = combine (map movieId l) (map rating l) ++ [(movieId r, rating r)]).
    { clear IH. induction l as [|x l IHl]; simpl; auto. now rewrite IHl. }
    rewrite E, filter_app. simpl.
    destruct (movieId r =? m)%Z; simpl.
    + rewrite !rev_app_distr. reflexivity.
    + rewrite !app_nil_r. exact IH.
Qed.

(** After the first loop every neighbour has its mean and its dict. *)
Lemma precompute_get (l : series F) (d1 : dict Z F) (d2 : dict Z (dict Z F)) (u : Z) :
  let st := fold_left
              (fun st e =>
                 let user := fst e in
                 let user_ratings := get_user_ratings ratings user in
                 (dict_set Z.eqb user (mean (map rating user_ratings)) (fst st),
                  dict_set Z.eqb user
                           (dict_zip Z.eqb (map movieId user_ratings) (map rating user_ratings))
                           (snd st)))
              l (d1, d2) in
  dict_get Z.eqb u (fst st) =
    (if memZ u (map fst l) then Some (mean_rating ratings u) else dict_get Z.eqb u d1) /\
  dict_get Z.eqb u (snd st) =
    (if memZ u (map fst l) then Some (user_dict u) else dict_get Z.eqb u d2).
Proof.
  revert d1 d2. induction l as [|[u' s] l IH]; intros d1 d2; simpl.
  - auto.
  - specialize (IH (dict_set Z.eqb u' (mean (map rating (get_user_ratings ratings u'))) d1)
                   (dict_set Z.eqb u'
                      (dict_zip Z.eqb (map movieId (get_user_ratings ratings u'))
                                (map rating (get_user_ratings ratings u'))) d2)).
    simpl in IH. destruct IH as [IH1 IH2]. rewrite IH1, IH2.
    rewrite !(dict_get_set Z.eqb Zeqb_eq).
    rewrite (Z.eqb_sym u u').
    destruct (memZ u (map fst l)); simpl; [rewrite orb_true_r; auto|].
    rewrite orb_false_r.
    destruct (Z.eqb_spec u' u) as [->|]; auto.
Qed.

Lemma precompute_neighbour (similar_users : series F) (u : Z) :
  In u (map fst similar_users) ->
  dict_get Z.eqb u (fst (precompute ratings similar_users)) = Some (mean_rating ratings u) /\
  dict_get Z.eqb u (snd (precompute ratings similar_users)) = Some (user_dict u).
Proof.
  intros Hin. apply memZ_In in Hin. unfold precompute.
  destruct (precompute_get similar_users [] [] u) as [H1 H2].
  rewrite Hin in H1, H2. auto.
Qed.

Lemma accumulate_ok (similar_users : series F) (m : Z) (sums : F * F) (e : Z * F) :
  In e similar_users ->
  accumulate (fst (precompute ratings similar_users))
             (snd (precompute ratings similar_users)) m sums e
  = Ok (accumulate_pure ratings m sums e).
Proof.
  intros Hin. destruct e as [u s], sums as [ws ss].
  assert (Hu : In u (map fst similar_users)) by (apply in_map_iff; now exists (u, s)).
  destruct (precompute_neighbour similar_users u Hu) as [H1 H2].
  unfold accumulate, accumulate_pure, dict_index. simpl.
  rewrite H2. simpl. rewrite user_dict_get.
  destruct (rating_of ratings u m); [|reflexivity].
  rewrite H1. reflexivity.
Qed.

Lemma accumulate_pure_sums (m : Z) (l : series F) (ws ss : F) :
  fold_left (accumulate_pure ratings m) l (ws, ss) =
  (sum_from ws (flat_map (fun e => match rating_of ratings (fst e) m with
                                   | Some r => [snd e * (r - mean_rating ratings (fst e))]
                                   | None => []
                                   end) l),
   sum_from ss (flat_map (fun e => match rating_of ratings (fst e) m with
                                   | Some _ => [snd e]
                                   | None => []
                                   end) l)).
Proof.
  revert ws ss. induction l as [|e l IH]; intros ws ss; simpl.
  - reflexivity.
  - unfold accumulate_pure at 2. unfold sum_from. rewrite !fold_left_app.
    destruct (rating_of ratings (fst e) m); simpl; apply IH.
Qed.

(** The inner loop computes weightedSum and similaritySum. *)
Lemma inner_loop_sums (similar_users : series F) (m : Z) :
  for_each (accumulate (fst (precompute ratings similar_users))
                       (snd (precompute ratings similar_users)) m)
           similar_users (zero, zero)
  = Ok (weighted_sum ratings similar_users m, similarity_sum ratings similar_users m).
Proof.
  rewrite (for_each_ok _ (accumulate_pure ratings m)).
  - now rewrite accumulate_pure_sums.
  - intros s x Hx. now apply accumulate_ok.
Qed.

(** [predict_with] never raises and returns the PredictionSet of the
    formula over the candidates [unseen_movies]. *)
Lemma predict_with_prediction_set (similar_users : series F) (target_user : Z) :
  predict_with ratings similar_users target_user =
  Ok (prediction_set ratings similar_users target_user
                     (unseen_movies ratings similar_users target_user)).
Proof.
  unfold predict_with, prediction_set.
  apply for_each_ok. intros d [m t] _. unfold predict_movie.
  rewrite inner_loop_sums. simpl.
  destruct (neb (similarity_sum ratings similar_users m) zero); reflexivity.
Qed.

End Prediction.

(* ================================================================== *)
(** * The candidates *)

Lemma pair_eqb_eq (a b : Z * string) : pair_eqb a b = true <-> a = b.
Proof.
  destruct a as [m t], b as [m' t']. unfold pair_eqb. simpl.
  rewrite andb_true_iff, Z.eqb_eq, String.eqb_eq. split.
  - intros [-> ->]. reflexivity.
  - intros E. inversion E. auto.
Qed.

Lemma seen_In (x : Z * string) (seen : list (Z * string)) :
  existsb (pair_eqb x) seen = true <-> In x seen.
Proof.
  rewrite existsb_exists. split.
  - intros (y & Hy & E). apply pair_eqb_eq in E. now subst.
  - intros H. exists x. split; auto. now apply pair_eqb_eq.
Qed.

Lemma drop_duplicates_from_In (x : Z * string) (seen l : list (Z * string)) :
  In x (drop_duplicates_from seen l) <-> In x l /\ ~ In x seen.
Proof.
  revert seen. induction l as [|y l IH]; intros seen; simpl.
  - tauto.
  - destruct (existsb (pair_eqb y) seen) eqn:E.
    + apply seen_In in E. rewrite IH. split.
      * intros [H1 H2]. auto.
      * intros [[->|H1] H2]; [contradiction | auto].
    + assert (Hy : ~ In y seen).
      { intros C. apply seen_In in C. congruence. }
      simpl. rewrite IH. simpl. split.
      * intros [->|[H1 H2]]; auto.
      * intros [[->|H1] H2]; auto.
        destruct (pair_eqb y x) eqn:Eyx.
        -- apply pair_eqb_eq in Eyx. auto.
        -- right. split; auto. intros [->|C]; auto.
           rewrite (proj2 (pair_eqb_eq x x) eq_refl) in Eyx. discriminate.
Qed.

Lemma drop_duplicates_from_NoDup (seen l : list (Z * string)) :
  NoDup (drop_duplicates_from seen l).
Proof.
  revert seen. induction l as [|y l IH]; intros seen; simpl.
  - constructor.
  - destruct (existsb (pair_eqb y) seen); auto.
    constructor; auto. rewrite drop_duplicates_from_In. simpl. tauto.
Qed.

Section Candidates.
Context {F : Type} {N : PyNum F}.
Local Open Scope num_scope.

(** A candidate is a (movieId, title) row of a neighbour's rating whose
    movieId is on no row of the target user. *)
Lemma unseen_movies_spec (ratings : list (row F)) (similar_users : series F)
      (target_user m : Z) (t : string) :
  In (m, t) (unseen_movies ratings similar_users target_user) <->
  exists r, In r ratings /\ In (userId r) (map fst similar_users) /\
            movieId r = m /\ title r = t /\
            forall r', In r' ratings -> userId r' = target_user -> movieId r' <> m.
Proof.
  unfold unseen_movies, drop_duplicates.
  rewrite drop_duplicates_from_In, in_map_iff. simpl.
  assert (Hseen : forall x, negb (memZ x (map movieId (get_user_ratings ratings target_user))) = true
                            <-> forall r', In r' ratings -> userId r' = target_user -> movieId r' <> x).
  { intros x. rewrite negb_true_iff, <- not_true_iff_false, memZ_In, in_map_iff.
    unfold get_user_ratings. split.
    - intros Hn r' Hr' Hu E. apply Hn. exists r'. split; auto.
      apply filter_In. split; auto. now apply Z.eqb_eq.
    - intros H (r' & E & Hr'). apply filter_In in Hr'. destruct Hr' as [Hr' Hu].
      apply Z.eqb_eq in Hu. now apply (H r'). }
  split.
  - intros [(r & E & Hr) _]. inversion E; subst.
    apply filter_In in Hr. destruct Hr as [Hr Hunseen].
    apply filter_In in Hr. destruct Hr as [Hr Hnb].
    exists r. repeat split; auto.
    + now apply memZ_In.
    + now apply Hseen.
  - intros (r & Hr & Hnb & <- & <- & Hunseen). split; [|tauto].
    exists r. split; auto.
    apply filter_In. split; [|now apply Hseen].
    apply filter_In. split; auto. now apply memZ_In.
Qed.

Lemma unseen_movies_NoDup (ratings : list (row F)) (similar_users : series F) (t : Z) :
  NoDup (unseen_movies ratings similar_users t).
Proof. apply drop_duplicates_from_NoDup. Qed.

(** The target user has rated no candidate. *)
Lemma candidate_unrated (ratings : list (row F)) (similar_users : series F)
      (target_user m : Z) (t : string) :
  In (m, t) (unseen_movies ratings similar_users target_user) ->
  rating_of ratings target_user m = None.
Proof.
  intros H. apply unseen_movies_spec in H. destruct H as (r & _ & _ & _ & _ & Hun).
  unfold rating_of.
  assert (E : filter (fun r => (movieId r =? m)%Z) (get_user_ratings ratings target_user) = []).
  { apply filter_none. apply Forall_forall. intros r' Hr'.
    unfold get_user_ratings in Hr'. apply filter_In in Hr'. destruct Hr' as [Hr' Hu].
    apply Z.eqb_eq in Hu. apply Z.eqb_neq. now apply Hun. }
  now rewrite E.
Qed.

(* ---------------------------------------------------------------- *)
(** ** Reading the PredictionSet *)

Variable ratings : list (row F).
Variable similar_users : series F.
Variable target_user : Z.

Let write (d : dict string F) (mv : Z * string) : dict string F :=
  if neb (similarity_sum ratings similar_users (fst mv)) zero
  then dict_set String.eqb (snd mv)
                (predicted_rating ratings similar_users target_user (fst mv)) d
  else d.

Lemma writes_other_titles (t : string) (l : list (Z * string)) (d : dict string F) :
  ~ In t (map snd l) ->
  dict_get String.eqb t (fold_left write l d) = dict_get String.eqb t d.
Proof.
  revert d. induction l as [|[m t'] l IH]; intros d H; simpl in *.
  - reflexivity.
  - rewrite IH by tauto. unfold write. simpl.
    destruct (neb (similarity_sum ratings similar_users m) zero); auto.
    rewrite (dict_get_set String.eqb String.eqb_eq).
    destruct (String.eqb_spec t' t); auto. subst. tauto.
Qed.

(** A title carried by a single candidate holds that candidate's
    prediction, or nothing when its similaritySum is 0. *)
Lemma prediction_set_get (l : list (Z * string)) (m : Z) (t : string) :
  NoDup l -> In (m, t) l ->
  (forall m', In (m', t) l -> m' = m) ->
  dict_get String.eqb t (prediction_set ratings similar_users target_user l) =
  if neb (similarity_sum ratings similar_users m) zero
  then Some (predicted_rating ratings similar_users target_user m)
  else None.
Proof.
  intros Hnd Hin Huniq. unfold prediction_set. fold write.
  destruct (in_split _ _ Hin) as (l1 & l2 & ->).
  assert (Hno : forall l', (forall x, In x l' -> In x (l1 ++ (m, t) :: l2)) ->
                           ~ In (m, t) l' -> ~ In t (map snd l')).
  { intros l' Hsub Hnot C. apply in_map_iff in C. destruct C as ([m' t'] & E & Hx).
    simpl in E. subst t'. assert (m' = m) by (apply Huniq, Hsub, Hx). subst. auto. }
  apply NoDup_remove_2 in Hnd.
  rewrite fold_left_app. simpl.
  rewrite writes_other_titles.
  - unfold write at 1. simpl.
    destruct (neb (similarity_sum ratings similar_users m) zero).
    + rewrite (dict_get_set String.eqb String.eqb_eq), String.eqb_refl. reflexivity.
    + rewrite writes_other_titles; [reflexivity|].
      apply Hno.
      * intros x Hx. apply in_or_app. now left.
      * intros C. apply Hnd. apply in_or_app. now left.
  - apply Hno.
    + intros x Hx. apply in_or_app. right. now right.
    + intros C. apply Hnd. apply in_or_app. now right.
Qed.

(** Every key was written by a candidate. *)
Lemma prediction_set_keys (l : list (Z * string)) (t : string) :
  In t (map fst (prediction_set ratings similar_users target_user l)) ->
  In t (map snd l).
Proof.
  unfold prediction_set. fold write.
  assert (G : forall d, In t (map fst (fold_left write l d)) ->
                        In t (map fst d) \/ In t (map snd l)).
  { induction l as [|[m t'] l IH]; intros d H; simpl in *; auto.
    apply IH in H. destruct H as [H|H]; auto.
    unfold write in H. simpl in H.
    destruct (neb (similarity_sum ratings similar_users m) zero); auto.
    apply dict_set_keys in H. destruct H; auto. }
  intros H. apply G in H. destruct H as [[]|H]. exact H.
Qed.

(** Every value is the target user's mean plus a correction. *)
Lemma prediction_set_values (l : list (Z * string)) :
  Forall (fun e => exists x, snd e = mean_rating ratings target_user + x)
         (prediction_set ratings similar_users target_user l).
Proof.
  unfold prediction_set. fold write.
  assert (G : forall d,
             Forall (fun e => exists x, snd e = mean_rating ratings target_user + x) d ->
             Forall (fun e => exists x, snd e = mean_rating ratings target_user + x)
                    (fold_left write l d)).
  { induction l as [|[m t'] l IH]; intros d H; simpl; auto.
    apply IH. unfold write. simpl.
    destruct (neb (similarity_sum ratings similar_users m) zero); auto.
    apply (dict_set_values String.eqb
             (fun v => exists x, v = mean_rating ratings target_user + x)); auto.
    unfold predicted_rating. eauto. }
  apply G. constructor.
Qed.

End Candidates.

(* ================================================================== *)
(** * Properties of predict_ratings *)

Lemma predict_ratings_unfold {F : Type} {N : PyNum F}
      (ratings : list (row F)) (df : frame F) (t : Z) (su : series F) :
  get_top_similar_users df t 40 = Ok su ->
  predict_ratings ratings df t =
  Ok (prediction_set ratings su t (unseen_movies ratings su t)).
Proof.
  intros H. unfold predict_ratings. rewrite H. simpl.
  apply predict_with_prediction_set.
Qed.

(** C1, as the code has it.  Take a row [r] of the ratings that makes its
    movie a candidate item: a neighbour gave it, and no row of the target
    user has its movieId.  When no other candidate carries its title,
    [predict_ratings] returns under that title exactly
    targetMeanRating + weightedSum / similaritySum if similaritySum is
    not 0, and has no entry for it if similaritySum is 0.  The example of
    the specification evaluates to 4.5. *)
Theorem predicted_rating_of_candidate :
  (forall (F : Type) (N : PyNum F) (ratings : list (row F)) (df : frame F)
          (t : Z) (su : series F) (r : row F),
      get_top_similar_users df t 40 = Ok su ->
      In r ratings ->
      In (userId r) (map fst su) ->
      (forall r', In r' ratings -> userId r' = t -> movieId r' <> movieId r) ->
      (forall m', In (m', title r) (unseen_movies ratings su t) -> m' = movieId r) ->
      exists d,
        predict_ratings ratings df t = Ok d /\
        dict_get String.eqb (title r) d =
        if neb (similarity_sum ratings su (movieId r)) zero
        then Some (mean_rating ratings t
                   + weighted_sum ratings su (movieId r)
                     / similarity_sum ratings su (movieId r))%num
        else None) /\
  predict_ratings spec_ratings spec_similarity 1 = Ok [("item3"%string, 4.5%float)].
Proof.
  split.
  - intros F N ratings df t su r Hsu Hr Hnb Hun Huniq.
    exists (prediction_set ratings su t (unseen_movies ratings su t)).
    split; [now apply predict_ratings_unfold|].
    apply prediction_set_get; auto.
    + apply unseen_movies_NoDup.
    + apply unseen_movies_spec. exists r. auto.
  - vm_compute. reflexivity.
Qed.

Lemma predicted_rating_of_candidate_witness :
  exists d,
    predict_ratings spec_ratings spec_similarity 1 = Ok d /\
    dict_get String.eqb "item3"%string d =
    if neb (similarity_sum spec_ratings [(2%Z, 0.8%float); (1%Z, 0%float)] 3) zero
    then Some (mean_rating spec_ratings 1
               + weighted_sum spec_ratings [(2%Z, 0.8%float); (1%Z, 0%float)] 3
                 / similarity_sum spec_ratings [(2%Z, 0.8%float); (1%Z, 0%float)] 3)%num
    else None.
Proof.
  apply (proj1 predicted_rating_of_candidate float float_num spec_ratings spec_similarity
               1%Z [(2%Z, 0.8%float); (1%Z, 0%float)] (Row 2 3 5%float "item3")).
  - vm_compute. reflexivity.
  - simpl. auto.
  - simpl. auto.
  - intros r' Hr' Hu. simpl in Hr'.
    destruct Hr' as [<-|[<-|[<-|[<-|[]]]]]; simpl in *; congruence.
  - intros m' H. vm_compute in H. destruct H as [H|[]]. now inversion H.
Defined.

(** C1 as stated fails when two candidates share a title: movie 838 is a
    candidate with similaritySum 0.5 and prediction 4 + 1/0.5 = 6, and the
    PredictionSet holds 2 under its title, the prediction of movie 26958
    written later under the same key. *)
Lemma predicted_rating_shared_title :
  get_top_similar_users half_sim 1 40 = Ok [(2%Z, 0.5%float); (1%Z, 0%float)] /\
  In (838%Z, "Emma (1996)"%string)
     (unseen_movies emma_ratings [(2%Z, 0.5%float); (1%Z, 0%float)] 1) /\
  neb (similarity_sum emma_ratings [(2%Z, 0.5%float); (1%Z, 0%float)] 838) zero = true /\
  predicted_rating emma_ratings [(2%Z, 0.5%float); (1%Z, 0%float)] 1 838 = 6%float /\
  predict_ratings emma_ratings half_sim 1 = Ok [("Emma (1996)"%string, 2%float)].
Proof. vm_compute. repeat split; auto. Qed.

(** C4, as the code has it.  Every key of the PredictionSet is the title
    of a movie that a neighbour has rated and that, by its movieId, no row
    of the target user rates. *)
Theorem prediction_keys_unseen :
  forall (F : Type) (N : PyNum F) (ratings : list (row F)) (df : frame F)
         (t : Z) (d : dict string F) (key : string),
    predict_ratings ratings df t = Ok d ->
    In key (map fst d) ->
    exists su r,
      get_top_similar_users df t 40 = Ok su /\
      In r ratings /\ In (userId r) (map fst su) /\ title r = key /\
      forall r', In r' ratings -> userId r' = t -> movieId r' <> movieId r.
Proof.
  intros F N ratings df t d key Hd Hkey.
  destruct (get_top_similar_users df t 40) as [su|e] eqn:Hsu.
  - rewrite (predict_ratings_unfold ratings df t su Hsu) in Hd.
    inversion Hd; subst d. apply prediction_set_keys in Hkey.
    apply in_map_iff in Hkey. destruct Hkey as ([m t'] & E & Hin).
    simpl in E. subst t'. apply unseen_movies_spec in Hin.
    destruct Hin as (r & Hr & Hnb & <- & <- & Hun).
    exists su, r. auto.
  - unfold predict_ratings in Hd. rewrite Hsu in Hd. discriminate.
Qed.

Lemma prediction_keys_unseen_witness :
  exists su r,
    get_top_similar_users spec_similarity 1 40 = Ok su /\
    In r spec_ratings /\ In (userId r) (map fst su) /\ title r = "item3"%string /\
    forall r', In r' spec_ratings -> userId r' = 1%Z -> movieId r' <> movieId r.
Proof.
  apply (prediction_keys_unseen float float_num spec_ratings spec_similarity 1%Z
           [("item3"%string, 4.5%float)] "item3"%string).
  - vm_compute. reflexivity.
  - simpl. auto.
Defined.

(** C4 as stated fails for titles: the target user 1 has rated movie 838,
    "Emma (1996)", and the PredictionSet has the key "Emma (1996)", written
    for movie 26958 of the same title. *)
Lemma prediction_key_rated_title :
  predict_ratings emma_seen_ratings half_sim 1 = Ok [("Emma (1996)"%string, 2%float)] /\
  In "Emma (1996)"%string (map title (get_user_ratings emma_seen_ratings 1)).
Proof. vm_compute. auto. Qed.

(** C10.  When the target user is in its own neighbourhood, the
    PredictionSet is the one computed with the target user removed from the
    neighbourhood: same keys, same values, same order. *)
Theorem predict_ratings_without_target :
  forall (F : Type) (N : PyNum F) (ratings : list (row F)) (df : frame F)
         (t : Z) (su : series F),
    get_top_similar_users df t 40 = Ok su ->
    In t (map fst su) ->
    exists d,
      predict_ratings ratings df t = Ok d /\
      predict_with ratings (filter (fun e => negb (fst e =? t)%Z) su) t = Ok d.
Proof.
  intros F N ratings df t su Hsu _.
  exists (prediction_set ratings su t (unseen_movies ratings su t)).
  split; [now apply predict_ratings_unfold|].
  rewrite predict_with_prediction_set. f_equal.
  set (su' := filter (fun e => negb (fst e =? t)%Z) su).
  assert (Hcand : unseen_movies ratings su' t = unseen_movies ratings su t).
  { unfold unseen_movies. f_equal. f_equal.
    rewrite !filter_twice. apply filter_ext_in. intros r Hr.
    destruct (negb (memZ (movieId r) (map movieId (get_user_ratings ratings t)))) eqn:Eun;
      [|now rewrite !andb_false_r].
    rewrite !andb_true_r.
    apply negb_true_iff in Eun.
    destruct (memZ (userId r) (map fst su)) eqn:E1.
    - apply memZ_In. apply memZ_In in E1. apply in_map_iff in E1.
      destruct E1 as (e & Ee & He). apply in_map_iff. exists e. split; auto.
      apply filter_In. split; auto. apply negb_true_iff. apply Z.eqb_neq.
      intros C. rewrite Ee in C.
      assert (Hm : memZ (movieId r) (map movieId (get_user_ratings ratings t)) = true).
      { apply memZ_In, in_map_iff. exists r. split; auto.
        apply filter_In. split; auto. now apply Z.eqb_eq. }
      congruence.
    - apply not_true_iff_false. intros C. apply memZ_In in C.
      apply in_map_iff in C. destruct C as (e & Ee & He).
      apply filter_In in He. destruct He as [He _].
      assert (memZ (userId r) (map fst su) = true).
      { apply memZ_In, in_map_iff. now exists e. }
      congruence. }
  rewrite Hcand. unfold prediction_set.
  apply fold_left_ext_in. intros d [m title] Hin. simpl.
  pose proof (candidate_unrated ratings su t m title Hin) as Hnone.
  assert (Hws : weighted_sum ratings su' m = weighted_sum ratings su m).
  { unfold weighted_sum, su'. f_equal. apply flat_map_filter.
    intros e _ He. apply negb_false_iff, Z.eqb_eq in He. now rewrite He, Hnone. }
  assert (Hss : similarity_sum ratings su' m = similarity_sum ratings su m).
  { unfold similarity_sum, su'. f_equal. apply flat_map_filter.
    intros e _ He. apply negb_false_iff, Z.eqb_eq in He. now rewrite He, Hnone. }
  unfold predicted_rating. rewrite Hws, Hss. reflexivity.
Qed.

Lemma predict_ratings_without_target_witness :
  exists d,
    predict_ratings spec_ratings spec_similarity 1 = Ok d /\
    predict_with spec_ratings
                 (filter (fun e => negb (fst e =? 1)%Z) [(2%Z, 0.8%float); (1%Z, 0%float)]) 1
    = Ok d.
Proof.
  apply (predict_ratings_without_target float float_num spec_ratings spec_similarity 1%Z
           [(2%Z, 0.8%float); (1%Z, 0%float)]).
  - vm_compute. reflexivity.
  - simpl. auto.
Defined.

(* ------------------------------------------------------------------ *)
(** ** A target user without ratings *)

Lemma float_nan_add (x : float) : PrimFloat.add nan x = nan.
Proof.
  apply Prim2SF_inj. rewrite add_spec.
  replace (Prim2SF nan) with S754_nan by reflexivity. reflexivity.
Qed.

(** C5, as the code has it.  [predict_ratings] has no check on the number
    of ratings of the target user and raises only what the lookup of the
    target's column raises ([KeyError] for a user absent from the
    similarity matrix).  With a neighbourhood at hand it returns a
    PredictionSet also for a target user without ratings: the mean of no
    rating is 0/0, and every predicted value is NaN. *)
Theorem predict_ratings_no_ratings :
  forall (ratings : list (row float)) (df : frame float) (t : Z),
    get_user_ratings ratings t = [] ->
    (~ In t (columns df) -> predict_ratings ratings df t = Raise KeyError) /\
    (forall e, predict_ratings ratings df t = Raise e -> getitem df t = Raise e) /\
    (forall su, get_top_similar_users df t 40 = Ok su ->
                exists d, predict_ratings ratings df t = Ok d /\
                          Forall (fun kv => isna (snd kv) = true) d).
Proof.
  intros ratings df t Hnone. split; [|split].
  - intros Habs. unfold predict_ratings, get_top_similar_users.
    now rewrite getitem_absent.
  - intros e. unfold predict_ratings, get_top_similar_users.
    destruct (getitem df t) as [col|e'] eqn:E; simpl.
    + rewrite predict_with_prediction_set. discriminate.
    + congruence.
  - intros su Hsu.
    exists (prediction_set ratings su t (unseen_movies ratings su t)).
    split; [now apply predict_ratings_unfold|].
    eapply Forall_impl; [|apply prediction_set_values].
    intros [k v] [x Hx]. cbn [snd] in *. subst v.
    unfold mean_rating. rewrite Hnone.
    assert (E : @mean float float_num [] = nan) by (vm_compute; reflexivity).
    cbn [map]. rewrite E. cbn [add float_num]. rewrite float_nan_add. reflexivity.
Qed.

Lemma predict_ratings_no_ratings_witness :
  (~ In 3%Z (columns ex_sim) -> predict_ratings silent_ratings ex_sim 3 = Raise KeyError) /\
  (forall e, predict_ratings silent_ratings ex_sim 3 = Raise e -> getitem ex_sim 3 = Raise e) /\
  (forall su, get_top_similar_users ex_sim 3 40 = Ok su ->
              exists d, predict_ratings silent_ratings ex_sim 3 = Ok d /\
                        Forall (fun kv => isna (snd kv) = true) d).
Proof.
  apply (predict_ratings_no_ratings silent_ratings ex_sim 3%Z). reflexivity.
Defined.

(** C5 as stated fails: user 3 has no rating and [predict_ratings] returns
    a PredictionSet, of NaN values, instead of failing. *)
Lemma predict_ratings_no_ratings_returns :
  get_user_ratings silent_ratings 3 = [] /\
  predict_ratings silent_ratings ex_sim 3 = Ok [("item1"%string, nan); ("item2"%string, nan)].
Proof. vm_compute. auto. Qed.

(* ================================================================== *)
(** * Properties of recommend_movies *)

(** C9, as the code has it.  For [0 <= n], [recommend_movies] returns
    at most [n] pairs taken from the predictions, all of them when there
    are no more than [n]; when no predicted rating is NaN the pairs are
    descending by predicted rating.  With [n = 10] and three predictions it
    returns those three, descending. *)
Theorem recommend_movies_top_n :
  (forall (F : Type) (N : PyNum F) (L : OrderLaws F)
          (predictions : dict string F) (n : Z),
      (0 <= n)%Z ->
      (Z.of_nat (length (recommend_movies predictions n)) <= n)%Z /\
      (exists rest, Permutation (recommend_movies predictions n ++ rest) predictions) /\
      ((Z.of_nat (length predictions) <= n)%Z ->
       Permutation (recommend_movies predictions n) predictions) /\
      (Forall (fun e => isna (snd e) = false) predictions ->
       descending snd (recommend_movies predictions n))) /\
  recommend_movies three_predictions 10 =
  [("b"%string, 4%float); ("c"%string, 2.5%float); ("a"%string, 1.5%float)].
Proof.
  split.
  - intros F N L predictions n Hn.
    unfold recommend_movies. rewrite slice_to_nonneg by exact Hn.
    pose proof (sort_desc_perm snd predictions) as Hperm.
    split; [|split; [|split]].
    + rewrite length_firstn. lia.
    + exists (skipn (Z.to_nat n) (sort_desc snd predictions)).
      now rewrite firstn_skipn.
    + intros Hall. rewrite firstn_all2; auto.
      rewrite (Permutation_length Hperm). lia.
    + intros Hnum. apply StronglySorted_firstn. now apply sort_desc_descending.
  - vm_compute. reflexivity.
Qed.

Lemma recommend_movies_top_n_witness :
  (Z.of_nat (length (recommend_movies three_predictions 2)) <= 2)%Z /\
  (exists rest, Permutation (recommend_movies three_predictions 2 ++ rest) three_predictions) /\
  ((Z.of_nat (length three_predictions) <= 2)%Z ->
   Permutation (recommend_movies three_predictions 2) three_predictions) /\
  descending snd (recommend_movies three_predictions 2).
Proof.
  destruct (proj1 recommend_movies_top_n float float_num float_order three_predictions 2%Z)
    as (H1 & H2 & H3 & H4).
  - lia.
  - repeat split; auto. apply H4. repeat constructor.
Defined.

(** C9 as stated fails for a PredictionSet with a NaN, such as
    [predict_ratings] returns from a similarity matrix that holds one:
    every comparison with NaN is false, the sort leaves the three pairs as
    they are, and 3 stands before 5. *)
Lemma recommend_movies_nan_order :
  predict_ratings nan_ratings nan_sim 1 = Ok nan_predictions /\
  recommend_movies nan_predictions 10 =
  [("A"%string, 3%float); ("B"%string, nan); ("C"%string, 5%float)] /\
  PrimFloat.ltb 3 5 = true.
Proof. vm_compute. auto. Qed.

(* ================================================================== *)
(** * The similarity matrices *)

Lemma nth_map_lt {A B} (f : A -> B) (l : list A) (i : nat) (d : A) (d' : B) :
  (i < length l)%nat -> nth i (map f l) d' = f (nth i l d).
Proof.
  intros H. rewrite (nth_indep _ d' (f d)) by now rewrite length_map.
  apply map_nth.
Qed.

Lemma nth_combine_lt {A B} (l : list A) (l' : list B) (i : nat) (d : A) (d' : B) :
  length l = length l' -> nth i (combine l l') (d, d') = (nth i l d, nth i l' d').
Proof. intros H. now apply combine_nth. Qed.

Lemma nth_enumerate {A} (m : list A) (i : nat) (d : A) :
  (i < length m)%nat ->
  nth i (combine (seq 0 (length m)) m) (O, d) = (i, nth i m d).
Proof.
  intros H. rewrite nth_combine_lt by now rewrite length_seq.
  now rewrite seq_nth.
Qed.

Section Matrices.
Context {F : Type} {N : PyNum F}.
Local Open Scope num_scope.

Lemma square_row (n : nat) (M : list (list F)) (i : nat) :
  square n M -> (i < n)%nat -> length (nth i M []) = n.
Proof.
  intros [Hl Hr] Hi. rewrite Forall_forall in Hr. apply Hr, nth_In. lia.
Qed.

Lemma set_nth_length (i : nat) (v : F) (l : list F) : length (set_nth i v l) = length l.
Proof.
  revert i. induction l as [|x l IH]; intros [|i]; simpl; auto.
Qed.

Lemma set_nth_nth (i j : nat) (v : F) (l : list F) :
  nth j (set_nth i v l) zero =
  if Nat.eqb i j then (if Nat.ltb j (length l) then v else zero) else nth j l zero.
Proof.
  revert i j. induction l as [|x l IH]; intros [|i] [|j]; simpl; auto;
    try (destruct (Nat.eqb i j); reflexivity).
Qed.

(** After [fill_diagonal] the diagonal holds the value and the rest is
    unchanged. *)
Lemma fill_diagonal_entry (n : nat) (M M' : list (list F)) (v : F) (i j : nat) :
  square n M -> fill_diagonal (Arr2 M) v = Ok M' ->
  (i < n)%nat -> (j < n)%nat ->
  entry M' i j = if Nat.eqb i j then v else entry M i j.
Proof.
  intros Hsq HM Hi Hj. simpl in HM. inversion HM; subst M'. clear HM.
  unfold entry. destruct Hsq as [Hl Hr].
  rewrite (nth_map_lt _ _ i (O, [])) by (rewrite length_combine, length_seq; lia).
  rewrite nth_enumerate by lia. simpl.
  rewrite set_nth_nth.
  rewrite (square_row n M i (conj Hl Hr) Hi).
  destruct (Nat.eqb i j); auto.
  destruct (Nat.ltb_spec j n); [reflexivity | lia].
Qed.

Lemma fill_diagonal_square (n : nat) (M M' : list (list F)) (v : F) :
  square n M -> fill_diagonal (Arr2 M) v = Ok M' -> square n M'.
Proof.
  intros [Hl Hr] HM. simpl in HM. inversion HM; subst M'. clear HM. split.
  - rewrite length_map, length_combine, length_seq. lia.
  - apply Forall_forall. intros r Hr'. apply in_map_iff in Hr'.
    destruct Hr' as ([i r0] & <- & Hin). simpl. rewrite set_nth_length.
    rewrite Forall_forall in Hr. apply Hr. eapply in_combine_r; eauto.
Qed.

(** ** Dot products *)

Lemma dot_comm {C : MulComm F} (x y : list F) : dot x y = dot y x.
Proof.
  unfold dot. f_equal. revert y. induction x as [|a x IH]; intros [|b y]; simpl; auto.
  now rewrite mul_comm, IH.
Qed.

(** A table of a symmetric function of its rows. *)
Lemma gram_entry (g : list F -> list F -> F) (X : list (list F)) (i j : nat) :
  (i < length X)%nat -> (j < length X)%nat ->
  entry (map (fun xi => map (fun xj => g xi xj) X) X) i j = g (nth i X []) (nth j X []).
Proof.
  intros Hi Hj. unfold entry.
  rewrite (nth_map_lt _ _ i []) by exact Hi.
  now rewrite (nth_map_lt _ _ j []) by exact Hj.
Qed.

Lemma gram_square (g : list F -> list F -> F) (X : list (list F)) :
  square (length X) (map (fun xi => map (fun xj => g xi xj) X) X).
Proof.
  split.
  - now rewrite length_map.
  - apply Forall_forall. intros r Hr. apply in_map_iff in Hr.
    destruct Hr as (xi & <- & _). now rewrite length_map.
Qed.

(** ** Covariance and correlation *)

Lemma cov_entry (X : list (list F)) (i j : nat) :
  (i < length X)%nat -> (j < length X)%nat ->
  entry (cov X) i j = dot (center (nth i X [])) (center (nth j X [])) * (one / fact_of X).
Proof.
  intros Hi Hj. unfold cov.
  rewrite (gram_entry (fun xi xj => dot xi xj * (one / fact_of X))) by now rewrite length_map.
  now rewrite !(nth_map_lt center X _ []).
Qed.

Lemma cov_square (X : list (list F)) : square (length X) (cov X).
Proof.
  unfold cov.
  pose proof (gram_square (fun xi xj => dot xi xj * (one / fact_of X)) (map center X)) as H.
  now rewrite length_map in H.
Qed.

Lemma diag_length (c : list (list F)) : length (diag c) = length c.
Proof. unfold diag. rewrite length_map, length_combine, length_seq. lia. Qed.

Lemma diag_nth (c : list (list F)) (i : nat) :
  (i < length c)%nat -> nth i (diag c) zero = entry c i i.
Proof.
  intros Hi. unfold diag, entry.
  rewrite (nth_map_lt _ _ i (O, [])) by (rewrite length_combine, length_seq; lia).
  now rewrite nth_enumerate.
Qed.

Lemma correlate_entry (n : nat) (c : list (list F)) (i j : nat) :
  square n c -> (i < n)%nat -> (j < n)%nat ->
  entry (correlate c) i j =
  clip ((entry c i j / sqrt (entry c i i)) / sqrt (entry c j j)).
Proof.
  intros Hsq Hi Hj. pose proof Hsq as [Hl Hr]. unfold correlate, entry at 1.
  assert (Hs : length (map sqrt (diag c)) = n) by now rewrite length_map, diag_length.
  assert (Hsn : forall k, (k < n)%nat -> nth k (map sqrt (diag c)) zero = sqrt (entry c k k)).
  { intros k Hk. rewrite (nth_map_lt _ _ k zero) by (rewrite diag_length; lia).
    now rewrite diag_nth by lia. }
  rewrite (nth_map_lt _ _ i (zero, [])) by (rewrite length_combine; lia).
  rewrite nth_combine_lt by lia. simpl.
  rewrite (nth_map_lt _ _ j (zero, zero))
    by (rewrite length_combine, Hs, (square_row n c i Hsq Hi); lia).
  rewrite nth_combine_lt by (rewrite Hs, (square_row n c i Hsq Hi); lia). simpl.
  rewrite !Hsn by assumption. reflexivity.
Qed.

Lemma correlate_square (n : nat) (c : list (list F)) :
  square n c -> square n (correlate c).
Proof.
  intros Hsq. pose proof Hsq as [Hl Hr]. unfold correlate.
  assert (Hs : length (map sqrt (diag c)) = n) by now rewrite length_map, diag_length.
  split.
  - rewrite length_map, length_combine. lia.
  - apply Forall_forall. intros r Hin. apply in_map_iff in Hin.
    destruct Hin as ([s ci] & <- & Hin). simpl.
    rewrite length_map, length_combine, Hs.
    rewrite Forall_forall in Hr. rewrite (Hr ci); [lia|].
    eapply in_combine_r; eauto.
Qed.

End Matrices.

Section SimilarityMatrices.
Context {F : Type} {N : PyNum F}.
Local Open Scope num_scope.

Lemma user_movie_matrix_rows (ratings : list (row F)) :
  length (values (user_movie_matrix ratings)) = length (index (user_movie_matrix ratings)).
Proof. unfold user_movie_matrix. simpl. now rewrite length_map. Qed.

(** [fill_diagonal] accepts the result of [corrcoef] for no row or for
    two rows and more. *)
Lemma corrcoef_filled (X M' : list (list F)) :
  fill_diagonal (corrcoef X) zero = Ok M' ->
  (X = [] /\ M' = []) \/
  ((2 <= length X)%nat /\ fill_diagonal (Arr2 (correlate (cov X))) zero = Ok M').
Proof.
  destruct X as [|a [|b X']]; intros H.
  - left. simpl in H. inversion H. auto.
  - simpl in H. discriminate.
  - right. split; [simpl; lia | exact H].
Qed.

(** What [pearson_similarity_matrix] returns, entry by entry. *)
Lemma pearson_similarity_matrix_inv (ratings : list (row F)) (df : frame F) :
  pearson_similarity_matrix ratings = Ok df ->
  let X := values (user_movie_matrix ratings) in
  index df = index (user_movie_matrix ratings) /\
  columns df = index (user_movie_matrix ratings) /\
  length (index df) = length X /\
  square (length X) (values df) /\
  forall i j, (i < length X)%nat -> (j < length X)%nat ->
    entry (values df) i j =
    if Nat.eqb i j then zero
    else clip ((entry (cov X) i j / sqrt (entry (cov X) i i)) / sqrt (entry (cov X) j j)).
Proof.
  intros H X. unfold pearson_similarity_matrix in H.
  pose proof (user_movie_matrix_rows ratings) as Hrows. fold X in Hrows.
  cbv zeta in H. fold X in H.
  destruct (fill_diagonal (corrcoef X) zero) as [M'|e] eqn:EM; [|discriminate].
  cbn [bind] in H. inversion H; subst df; clear H. cbn [index columns values].
  split; [reflexivity|]. split; [reflexivity|]. split; [symmetry; exact Hrows|].
  destruct (corrcoef_filled X M' EM) as [[EX ->]|[Hlen EM']].
  - rewrite EX. split.
    + split; [reflexivity | constructor].
    + intros i j Hi. simpl in Hi. lia.
  - split.
    + eapply fill_diagonal_square; [|exact EM'].
      apply correlate_square, cov_square.
    + intros i j Hi Hj.
      rewrite (fill_diagonal_entry (length X) _ M' zero i j
                 (correlate_square _ _ (cov_square X)) EM' Hi Hj).
      destruct (Nat.eqb i j); auto.
      apply correlate_entry with (n := length X); auto. apply cov_square.
Qed.

(** [pearson_similarity_matrix] returns a matrix unless the ratings are
    those of a single user. *)
Lemma pearson_similarity_matrix_returns (ratings : list (row F)) :
  length (index (user_movie_matrix ratings)) <> 1%nat ->
  exists df, pearson_similarity_matrix ratings = Ok df.
Proof.
  intros H. rewrite <- user_movie_matrix_rows in H.
  unfold pearson_similarity_matrix.
  destruct (values (user_movie_matrix ratings)) as [|a [|b X']]; simpl in *;
    try congruence; eauto.
Qed.

(** What [cosine_similarity_matrix] returns, entry by entry. *)
Lemma cosine_similarity_matrix_inv (ratings : list (row F)) (df : frame F) :
  cosine_similarity_matrix ratings = Ok df ->
  let X := values (user_movie_matrix ratings) in
  index df = index (user_movie_matrix ratings) /\
  columns df = index (user_movie_matrix ratings) /\
  length (index df) = length X /\
  square (length X) (values df) /\
  forall i j, (i < length X)%nat -> (j < length X)%nat ->
    entry (values df) i j =
    if Nat.eqb i j then zero
    else dot (normalize_row (nth i X [])) (normalize_row (nth j X [])).
Proof.
  intros H X. unfold cosine_similarity_matrix in H.
  pose proof (user_movie_matrix_rows ratings) as Hrows. fold X in Hrows.
  cbv zeta in H. fold X in H.
  destruct (cosine_similarity X) as [K|e] eqn:EK; [|discriminate].
  cbn [bind] in H.
  destruct (fill_diagonal (Arr2 K) zero) as [M'|e] eqn:EM; [|discriminate].
  cbn [bind] in H. inversion H; subst df; clear H. cbn [index columns values].
  assert (HK : K = map (fun xi => map (fun xj => dot xi xj) (map normalize_row X))
                       (map normalize_row X)).
  { unfold cosine_similarity in EK. destruct X; [discriminate|].
    destruct (forallb (forallb isfinite) (l :: X)); [|discriminate].
    now inversion EK. }
  assert (Hsq : square (length X) K).
  { rewrite HK. pose proof (gram_square dot (map normalize_row X)) as G.
    now rewrite length_map in G. }
  split; [reflexivity|]. split; [reflexivity|]. split; [symmetry; exact Hrows|].
  split.
  - eapply fill_diagonal_square; eauto.
  - intros i j Hi Hj.
    rewrite (fill_diagonal_entry (length X) K M' zero i j Hsq EM Hi Hj).
    destruct (Nat.eqb i j); auto.
    rewrite HK, (gram_entry dot) by now rewrite length_map.
    now rewrite !(nth_map_lt normalize_row X _ []).
Qed.

(** [cosine_similarity_matrix] returns a matrix when there is a user and
    every cell is finite. *)
Lemma cosine_similarity_matrix_returns (ratings : list (row F)) :
  index (user_movie_matrix ratings) <> [] ->
  forallb (forallb isfinite) (values (user_movie_matrix ratings)) = true ->
  exists df, cosine_similarity_matrix ratings = Ok df.
Proof.
  intros Hne Hfin. unfold cosine_similarity_matrix, cosine_similarity.
  pose proof (user_movie_matrix_rows ratings) as Hrows.
  destruct (values (user_movie_matrix ratings)) as [|a X'] eqn:EX.
  - destruct (index (user_movie_matrix ratings)); [congruence | discriminate].
  - rewrite Hfin. simpl. eauto.
Qed.

End SimilarityMatrices.

(* ------------------------------------------------------------------ *)
(** ** Symmetry and the diagonal *)

(** C2, as the code has it.  The matrix returned by either function is
    square over the users and every diagonal entry is 0.  Entry [i][j]
    equals entry [j][i] for [cosine_similarity_matrix], and for
    [pearson_similarity_matrix] in exact arithmetic, where the division by
    [stddev[i]] and the division by [stddev[j]] may be exchanged. *)
Theorem similarity_matrix_symmetric :
  forall (F : Type) (N : PyNum F) (ratings : list (row F)) (df : frame F),
    pearson_similarity_matrix ratings = Ok df \/
    cosine_similarity_matrix ratings = Ok df ->
    columns df = index df /\
    square (length (index df)) (values df) /\
    (forall i, (i < length (index df))%nat -> entry (values df) i i = zero) /\
    (MulComm F ->
     cosine_similarity_matrix ratings = Ok df \/ DivSwap F ->
     forall i j, (i < length (index df))%nat -> (j < length (index df))%nat ->
                 entry (values df) i j = entry (values df) j i).
Proof.
  intros F N ratings df H.
  assert (Hcos : cosine_similarity_matrix ratings = Ok df ->
                 MulComm F ->
                 forall i j, (i < length (index df))%nat -> (j < length (index df))%nat ->
                             entry (values df) i j = entry (values df) j i).
  { intros Hc C i j. apply cosine_similarity_matrix_inv in Hc.
    destruct Hc as (_ & _ & Hlen & _ & He). rewrite Hlen. intros Hlt_i Hlt_j.
    rewrite (He i j), (He j i) by assumption.
    rewrite (Nat.eqb_sym j i). destruct (Nat.eqb i j); [reflexivity|].
    apply dot_comm. }
  destruct H as [H|H].
  - pose proof (pearson_similarity_matrix_inv ratings df H) as Hinv.
    destruct Hinv as (Hi & Hc & Hlen & Hsq & He).
    split; [congruence|]. split; [now rewrite Hlen|]. split.
    + intros i Hlt. rewrite Hlen in Hlt.
      rewrite (He i i) by assumption. now rewrite Nat.eqb_refl.
    + intros C [Hc'|D]; [now apply Hcos|].
      intros i j Hlt_i Hlt_j. rewrite Hlen in Hlt_i, Hlt_j.
      rewrite (He i j), (He j i) by assumption.
      rewrite (Nat.eqb_sym j i). destruct (Nat.eqb i j); [reflexivity|].
      rewrite !cov_entry by assumption.
      rewrite (dot_comm (center (nth j _ [])) (center (nth i _ []))).
      now rewrite div_swap.
  - pose proof (cosine_similarity_matrix_inv ratings df H) as Hinv.
    destruct Hinv as (Hi & Hc & Hlen & Hsq & He).
    split; [congruence|]. split; [now rewrite Hlen|]. split.
    + intros i Hlt. rewrite Hlen in Hlt.
      rewrite (He i i) by assumption. now rewrite Nat.eqb_refl.
    + intros C _. now apply Hcos.
Qed.

Lemma float_mul_comm : MulComm float.
Proof.
  intros x y. simpl. apply Prim2SF_inj. rewrite !mul_spec. unfold SF64mul.
  destruct (Prim2SF x) as [sx|sx| |sx mx ex], (Prim2SF y) as [sy|sy| |sy my ey];
    cbn [SFmul]; try reflexivity; rewrite (xorb_comm sx sy); try reflexivity.
  now rewrite (Pos.mul_comm mx my), (Z.add_comm ex ey).
Qed.

(** Over the reals every rated (user, movie) pair is kept by the pivot. *)
Lemma kept_real (ratings : list (row R)) (r : row R) :
  In r ratings -> kept ratings r = true.
Proof.
  intros Hin. unfold kept, agg_cell.
  destruct (filter _ ratings) as [|x g] eqn:E.
  - assert (Hr : In r []).
    { rewrite <- E. apply filter_In. split; auto. now rewrite !Z.eqb_refl. }
    destruct Hr.
  - now rewrite R_isna.
Qed.

Lemma filter_all {A} (f : A -> bool) (l : list A) :
  (forall x, In x l -> f x = true) -> filter f l = l.
Proof.
  induction l as [|x l IH]; intros H; simpl; auto.
  rewrite H by now left. f_equal. apply IH. intros y Hy. apply H. now right.
Qed.

Lemma similarity_matrix_symmetric_witness :
  (exists df : frame R,
      pearson_similarity_matrix real_ratings = Ok df /\
      columns df = index df /\
      square (length (index df)) (values df) /\
      (forall i, (i < length (index df))%nat -> entry (values df) i i = zero) /\
      (forall i j, (i < length (index df))%nat -> (j < length (index df))%nat ->
                   entry (values df) i j = entry (values df) j i)) /\
  (exists df : frame float,
      cosine_similarity_matrix spec_ratings = Ok df /\
      columns df = index df /\
      square (length (index df)) (values df) /\
      (forall i, (i < length (index df))%nat -> entry (values df) i i = zero) /\
      (forall i j, (i < length (index df))%nat -> (j < length (index df))%nat ->
                   entry (values df) i j = entry (values df) j i)).
Proof.
  split.
  - destruct (pearson_similarity_matrix_returns real_ratings) as [df Hdf].
    + unfold user_movie_matrix. cbn [index].
      rewrite (filter_all (kept real_ratings) real_ratings (kept_real real_ratings)).
      vm_compute. discriminate.
    + exists df. split; [exact Hdf|].
      destruct (similarity_matrix_symmetric R R_num real_ratings df (or_introl Hdf))
        as (H1 & H2 & H3 & H4).
      split; [exact H1|]. split; [exact H2|]. split; [exact H3|].
      exact (H4 R_mul_comm (or_intror R_div_swap)).
  - destruct (cosine_similarity_matrix_returns spec_ratings) as [df Hdf].
    + vm_compute. discriminate.
    + vm_compute. reflexivity.
    + exists df. split; [exact Hdf|].
      destruct (similarity_matrix_symmetric float float_num spec_ratings df (or_intror Hdf))
        as (H1 & H2 & H3 & H4).
      split; [exact H1|]. split; [exact H2|]. split; [exact H3|].
      exact (H4 float_mul_comm (or_introl Hdf)).
Defined.

(** C2 as stated fails for the Pearson matrix in binary64: for
    [round_ratings] the covariances 5/3, 8/3 and 1.5 are each one rounding
    of an exact value, and dividing 5/3 by the two standard deviations in
    one order or the other gives two different floats, 1 ulp apart. *)
Lemma pearson_rounding_asymmetry :
  pearson_similarity_matrix round_ratings =
  Ok (Frame [1; 2]%Z [1; 2]%Z
            [ [0; 0.83333333333333326]; [0.83333333333333337; 0] ]%float) /\
  PrimFloat.eqb 0.83333333333333326 0.83333333333333337 = false.
Proof. vm_compute. auto. Qed.

(* ------------------------------------------------------------------ *)
(** ** A user of zero variance *)

Module FloatZero.

Lemma of_eqb_zero (d : float) : PrimFloat.eqb d zero = true -> zero_or_nan d.
Proof.
  unfold zero_or_nan. rewrite FloatAxioms.eqb_spec.
  replace (Prim2SF zero) with (S754_zero false) by reflexivity.
  destruct (Prim2SF d) as [s|s| |s m e]; try destruct s; cbn; auto; discriminate.
Qed.

Lemma mul_l (x y : float) : zero_or_nan x -> zero_or_nan (PrimFloat.mul x y).
Proof.
  unfold zero_or_nan. rewrite mul_spec.
  destruct (Prim2SF x), (Prim2SF y); cbn; tauto.
Qed.

Lemma mul_r (x y : float) : zero_or_nan y -> zero_or_nan (PrimFloat.mul x y).
Proof.
  unfold zero_or_nan. rewrite mul_spec.
  destruct (Prim2SF x), (Prim2SF y); cbn; tauto.
Qed.

Lemma add_both (x y : float) :
  zero_or_nan x -> zero_or_nan y -> zero_or_nan (PrimFloat.add x y).
Proof.
  unfold zero_or_nan. rewrite add_spec.
  destruct (Prim2SF x) as [[]|[]| |[] ? ?], (Prim2SF y) as [[]|[]| |[] ? ?];
    cbn; tauto.
Qed.

Lemma div_l (x y : float) : zero_or_nan x -> zero_or_nan (PrimFloat.div x y).
Proof.
  unfold zero_or_nan. rewrite div_spec.
  destruct (Prim2SF x), (Prim2SF y); cbn; tauto.
Qed.

Lemma sqrt_of (x : float) : zero_or_nan x -> zero_or_nan (PrimFloat.sqrt x).
Proof.
  unfold zero_or_nan. rewrite sqrt_spec.
  destruct (Prim2SF x) as [[]|[]| |[] ? ?]; cbn; tauto.
Qed.

Lemma div_both (x y : float) :
  zero_or_nan x -> zero_or_nan y -> isna (PrimFloat.div x y) = true.
Proof.
  unfold zero_or_nan. intros Hx Hy. apply FloatOrder.isna_spec. rewrite div_spec.
  destruct (Prim2SF x), (Prim2SF y); cbn; auto; contradiction.
Qed.

Lemma div_nan (x y : float) : isna x = true -> isna (PrimFloat.div x y) = true.
Proof.
  intros Hx. apply FloatOrder.isna_spec in Hx. apply FloatOrder.isna_spec.
  rewrite div_spec, Hx. reflexivity.
Qed.

Lemma sum_from_all (l : list float) (acc : float) :
  zero_or_nan acc -> Forall zero_or_nan l -> zero_or_nan (sum_from acc l).
Proof.
  intros Ha Hl. revert acc Ha. unfold sum_from.
  induction Hl as [|x l Hx _ IH]; intros acc Ha; simpl; auto.
  apply IH. now apply add_both.
Qed.

Lemma dot_l (x y : list float) : Forall zero_or_nan x -> zero_or_nan (dot x y).
Proof.
  intros Hx. unfold dot, total. apply sum_from_all; [exact I|].
  revert y. induction Hx as [|a x Ha _ IH]; intros [|b y]; simpl; constructor; auto.
  now apply mul_l.
Qed.

Lemma dot_r (x y : list float) : Forall zero_or_nan y -> zero_or_nan (dot x y).
Proof.
  intros Hy. unfold dot, total. apply sum_from_all; [exact I|].
  revert x. induction Hy as [|b y Hb _ IH]; intros [|a x]; simpl; constructor; auto.
  now apply mul_r.
Qed.

Lemma clip_nan (x : float) : isna x = true -> isna (clip x) = true.
Proof. intros H. unfold clip. now rewrite H. Qed.

Lemma nan_not_zero (x : float) : isna x = true -> PrimFloat.eqb x zero = false.
Proof.
  intros H. apply FloatOrder.isna_spec in H.
  rewrite FloatAxioms.eqb_spec, H. reflexivity.
Qed.

End FloatZero.

(** C6, as the code has it.  [pearson_similarity_matrix] substitutes
    nothing: for a user whose zero-filled rating vector has zero variance
    (every deviation from its mean is 0) the entry of each pair of that
    user with another user, in either order, is NaN and not 0; only the
    diagonal is 0. *)
Theorem pearson_zero_variance_nan :
  forall (ratings : list (row float)) (df : frame float) (i j : nat),
    pearson_similarity_matrix ratings = Ok df ->
    (i < length (index df))%nat -> (j < length (index df))%nat -> i <> j ->
    Forall (fun d => PrimFloat.eqb d zero = true)
           (center (nth i (values (user_movie_matrix ratings)) [])) ->
    (isna (entry (values df) i j) = true /\
     PrimFloat.eqb (entry (values df) i j) zero = false) /\
    (isna (entry (values df) j i) = true /\
     PrimFloat.eqb (entry (values df) j i) zero = false) /\
    entry (values df) i i = zero.
Proof.
  intros ratings df i j H Hi Hj Hne Hflat.
  apply pearson_similarity_matrix_inv in H.
  destruct H as (_ & _ & Hlen & _ & He). rewrite Hlen in Hi, Hj.
  set (X := values (user_movie_matrix ratings)) in *.
  assert (Hz : Forall zero_or_nan (center (nth i X []))).
  { eapply Forall_impl; [|exact Hflat]. intros d. apply FloatZero.of_eqb_zero. }
  assert (Hii : zero_or_nan (entry (cov X) i i)).
  { rewrite cov_entry by assumption. apply FloatZero.mul_l, FloatZero.dot_l, Hz. }
  assert (Hij : zero_or_nan (entry (cov X) i j)).
  { rewrite cov_entry by assumption. apply FloatZero.mul_l, FloatZero.dot_l, Hz. }
  assert (Hji : zero_or_nan (entry (cov X) j i)).
  { rewrite cov_entry by assumption. apply FloatZero.mul_l, FloatZero.dot_r, Hz. }
  rewrite (He i j), (He j i), (He i i) by assumption.
  rewrite Nat.eqb_refl.
  rewrite (proj2 (Nat.eqb_neq i j) Hne).
  rewrite (proj2 (Nat.eqb_neq j i) (fun E => Hne (eq_sym E))).
  assert (N1 : isna (clip ((entry (cov X) i j / sqrt (entry (cov X) i i))
                           / sqrt (entry (cov X) j j))%num) = true).
  { apply FloatZero.clip_nan, FloatZero.div_nan, FloatZero.div_both; auto.
    now apply FloatZero.sqrt_of. }
  assert (N2 : isna (clip ((entry (cov X) j i / sqrt (entry (cov X) j j))
                           / sqrt (entry (cov X) i i))%num) = true).
  { apply FloatZero.clip_nan, FloatZero.div_both.
    - now apply FloatZero.div_l.
    - now apply FloatZero.sqrt_of. }
  split; [|split; [|reflexivity]]; (split; [assumption | now apply FloatZero.nan_not_zero]).
Qed.

Lemma pearson_zero_variance_nan_witness :
  (isna (entry [[0; nan]; [nan; 0]]%float 0 1) = true /\
   PrimFloat.eqb (entry [[0; nan]; [nan; 0]]%float 0 1) zero = false) /\
  (isna (entry [[0; nan]; [nan; 0]]%float 1 0) = true /\
   PrimFloat.eqb (entry [[0; nan]; [nan; 0]]%float 1 0) zero = false) /\
  entry [[0; nan]; [nan; 0]]%float 0 0 = zero.
Proof.
  apply (pearson_zero_variance_nan flat_ratings
           (Frame [1; 2]%Z [1; 2]%Z [[0; nan]; [nan; 0]]%float) 0%nat 1%nat).
  - vm_compute. reflexivity.
  - simpl. lia.
  - simpl. lia.
  - discriminate.
  - vm_compute. repeat constructor.
Defined.

(** C6 as stated fails: user 1 rated both movies 3, and the matrix
    returned holds NaN, not 0, for the pair of users 1 and 2. *)
Lemma pearson_zero_variance_example :
  pearson_similarity_matrix flat_ratings =
  Ok (Frame [1; 2]%Z [1; 2]%Z [[0; nan]; [nan; 0]]%float) /\
  center (nth 0 (values (user_movie_matrix flat_ratings)) []) = [0; 0]%float /\
  PrimFloat.eqb nan 0 = false.
Proof. vm_compute. auto. Qed.

(* ================================================================== *)
(** * Further properties: the user-item matrix *)

Lemma insert_label_In (x y : Z) (l : list Z) :
  In y (insert_label x l) <-> y = x \/ In y l.
Proof.
  induction l as [|z l IH]; simpl.
  - intuition.
  - destruct (Z.ltb_spec x z); simpl; [intuition|].
    destruct (Z.eqb_spec x z); simpl.
    + subst. intuition.
    + rewrite IH. intuition.
Qed.

Lemma insert_label_sorted (x : Z) (l : list Z) :
  StronglySorted Z.lt l -> StronglySorted Z.lt (insert_label x l).
Proof.
  induction 1 as [|z l Hs IH Hz]; simpl.
  - repeat constructor.
  - destruct (Z.ltb_spec x z).
    + constructor; [now constructor|].
      constructor; auto. eapply Forall_impl; [|exact Hz]. intros a Ha. lia.
    + destruct (Z.eqb_spec x z).
      * now constructor.
      * constructor; auto. apply Forall_forall. intros a Ha.
        apply insert_label_In in Ha. destruct Ha as [->|Ha]; [lia|].
        rewrite Forall_forall in Hz. now apply Hz.
Qed.

Lemma sorted_unique_In (y : Z) (l : list Z) : In y (sorted_unique l) <-> In y l.
Proof.
  induction l as [|x l IH]; simpl; [tauto|].
  rewrite insert_label_In, IH. intuition.
Qed.

Lemma sorted_unique_sorted (l : list Z) : StronglySorted Z.lt (sorted_unique l).
Proof.
  induction l as [|x l IH]; simpl; [constructor|]. now apply insert_label_sorted.
Qed.

Lemma strictly_sorted_NoDup (l : list Z) : StronglySorted Z.lt l -> NoDup l.
Proof.
  induction 1 as [|z l Hs IH Hz]; constructor; auto.
  intros C. rewrite Forall_forall in Hz. apply Hz in C. lia.
Qed.

(** The pivot table lists the users, and the movies, in strictly
    ascending order, each once; a user is listed exactly when one of its
    (user, movie) groups has a mean that is a number; every row has one
    cell per movie. *)
Lemma user_movie_matrix_shape :
  forall (F : Type) (N : PyNum F) (ratings : list (row F)),
    StronglySorted Z.lt (index (user_movie_matrix ratings)) /\
    StronglySorted Z.lt (columns (user_movie_matrix ratings)) /\
    (forall u, In u (index (user_movie_matrix ratings)) <->
               exists r, In r ratings /\ userId r = u /\ kept ratings r = true) /\
    (forall m, In m (columns (user_movie_matrix ratings)) <->
               exists r, In r ratings /\ movieId r = m /\ kept ratings r = true) /\
    length (values (user_movie_matrix ratings)) =
    length (index (user_movie_matrix ratings)) /\
    Forall (fun cells => length cells = length (columns (user_movie_matrix ratings)))
           (values (user_movie_matrix ratings)).
Proof.
  intros F N ratings. unfold user_movie_matrix. cbn [index columns values].
  split; [apply sorted_unique_sorted|]. split; [apply sorted_unique_sorted|].
  split; [|split; [|split]].
  - intros u. rewrite sorted_unique_In, in_map_iff. split.
    + intros (r & E & Hr). apply filter_In in Hr. exists r. tauto.
    + intros (r & Hr & E & Hk). exists r. split; auto. apply filter_In. tauto.
  - intros m. rewrite sorted_unique_In, in_map_iff. split.
    + intros (r & E & Hr). apply filter_In in Hr. exists r. tauto.
    + intros (r & Hr & E & Hk). exists r. split; auto. apply filter_In. tauto.
  - now rewrite length_map.
  - apply Forall_forall. intros cells Hc. apply in_map_iff in Hc.
    destruct Hc as (u & <- & _). now rewrite length_map.
Qed.

(* ================================================================== *)
(** * Further properties: from the similarity matrix to the neighbourhood *)

Lemma positions_spec (t : Z) (l : list Z) (i q : nat) :
  In q (positions t l i) ->
  (i <= q)%nat /\ (q - i < length l)%nat /\ nth (q - i) l 0%Z = t.
Proof.
  revert i. induction l as [|x l IH]; simpl; intros i H; [contradiction|].
  assert (Hrec : In q (positions t l (S i)) ->
                 (i <= q)%nat /\ (q - i < S (length l))%nat /\
                 nth (q - i) (x :: l) 0%Z = t).
  { intros Hq. apply IH in Hq. destruct Hq as (H1 & H2 & H3).
    replace (q - i)%nat with (S (q - S i)) by lia.
    split; [lia|]. split; [lia|]. exact H3. }
  destruct (Z.eqb_spec x t) as [->|Hne]; [|now apply Hrec].
  destruct H as [<-|H]; [|now apply Hrec].
  rewrite Nat.sub_diag. simpl. split; [lia|]. split; [lia|reflexivity].
Qed.

Lemma map_fst_combine {A B} (l : list A) (l' : list B) :
  length l = length l' -> map fst (combine l l') = l.
Proof.
  revert l'. induction l as [|x l IH]; intros [|y l'] H; simpl in *;
    try discriminate; auto.
  f_equal. apply IH. lia.
Qed.

Lemma NoDup_firstn {A} (m : nat) (l : list A) : NoDup l -> NoDup (firstn m l).
Proof.
  intros H. revert m. induction H as [|x l Hx _ IH]; intros [|m]; simpl;
    try constructor; auto.
  intros C. apply Hx. eapply in_firstn; eauto.
Qed.

Section Pipeline.
Context {F : Type} {N : PyNum F}.
Local Open Scope num_scope.

(** The column of a user that labels one column, read by position. *)
Lemma getitem_column (df : frame F) (t : Z) (col : series F) :
  getitem df t = Ok col ->
  exists p, (p < length (columns df))%nat /\ nth p (columns df) 0%Z = t /\
            col = combine (index df) (map (fun r => nth p r zero) (values df)).
Proof.
  unfold getitem. destruct (positions t (columns df) 0) as [|p [|q l]] eqn:E;
    try discriminate.
  intros H. inversion H. exists p.
  assert (Hp : In p (positions t (columns df) 0)) by (rewrite E; now left).
  apply positions_spec in Hp. rewrite Nat.sub_0_r in Hp. tauto.
Qed.

Lemma similarity_frame_returned (ratings : list (row F)) (df : frame F) :
  pearson_similarity_matrix ratings = Ok df \/
  cosine_similarity_matrix ratings = Ok df ->
  similarity_frame df /\ index df = index (user_movie_matrix ratings).
Proof.
  intros H.
  assert (G : index df = index (user_movie_matrix ratings) /\
              columns df = index (user_movie_matrix ratings) /\
              length (index df) = length (values (user_movie_matrix ratings)) /\
              square (length (values (user_movie_matrix ratings))) (values df) /\
              forall i, (i < length (values (user_movie_matrix ratings)))%nat ->
                        entry (values df) i i = zero).
  { destruct H as [H|H];
      [apply pearson_similarity_matrix_inv in H | apply cosine_similarity_matrix_inv in H];
      destruct H as (H1 & H2 & H3 & H4 & H5); repeat split; auto; try apply H4;
      intros i Hi; rewrite (H5 i i Hi Hi), Nat.eqb_refl; reflexivity. }
  destruct G as (H1 & H2 & H3 & H4 & H5). split; [|exact H1].
  split; [congruence|]. split.
  - rewrite H1. apply strictly_sorted_NoDup.
    apply (user_movie_matrix_shape F N ratings).
  - split; [now rewrite H3|]. intros i Hi. apply H5. now rewrite <- H3.
Qed.

Lemma similarity_frame_column (df : frame F) (t : Z) (col : series F) :
  similarity_frame df -> getitem df t = Ok col ->
  map fst col = index df /\ In (t, zero) col.
Proof.
  intros (Hc & Hnd & [Hl Hr] & Hd) H.
  destruct (getitem_column df t col H) as (p & Hp & Ht & ->).
  rewrite Hc in Hp, Ht.
  assert (Hlen : length (index df) = length (map (fun r => nth p r zero) (values df)))
    by now rewrite length_map.
  split; [now apply map_fst_combine|].
  replace (t, zero) with (nth p (combine (index df) (map (fun r => nth p r zero) (values df)))
                              (0%Z, zero)).
  - apply nth_In. rewrite length_combine, <- Hlen. lia.
  - rewrite nth_combine_lt by exact Hlen. rewrite Ht. f_equal.
    rewrite (nth_map_lt _ _ p []) by lia. apply (Hd p Hp).
Qed.

End Pipeline.

(* ------------------------------------------------------------------ *)
(** ** Rounding in binary64: signs, and results that are numbers *)

Module FloatRound.

Lemma binary_round_aux_opp (s : bool) (m e : Z) (l : location) :
  binary_round_aux prec emax (negb s) m e l
  = SFopp (binary_round_aux prec emax s m e l).
Proof.
  unfold binary_round_aux.
  destruct (shr_fexp prec emax m e l) as [mrs' e'].
  destruct (shr_fexp prec emax _ e' loc_Exact) as [mrs'' e''].
  destruct (shr_m mrs''); try reflexivity.
  destruct (Z.leb e'' (emax - prec)); reflexivity.
Qed.

Lemma SFmul_opp_l (x y : spec_float) :
  SFmul prec emax (SFopp x) y = SFopp (SFmul prec emax x y).
Proof.
  destruct x as [sx|sx| |sx mx ex], y as [sy|sy| |sy my ey]; simpl;
    try reflexivity; try (destruct sx, sy; reflexivity).
  rewrite <- binary_round_aux_opp. f_equal. destruct sx, sy; reflexivity.
Qed.

Lemma SFdiv_opp_opp (x y : spec_float) :
  SFdiv prec emax (SFopp x) (SFopp y) = SFdiv prec emax x y.
Proof.
  destruct x as [sx|sx| |sx mx ex], y as [sy|sy| |sy my ey]; simpl;
    try reflexivity; destruct sx, sy; reflexivity.
Qed.

Lemma SFadd_zero_opp (a : spec_float) :
  SFadd prec emax (S754_zero false) (SFopp a) = SFopp (SFadd prec emax (S754_zero false) a) \/
  (SFadd prec emax (S754_zero false) a = (S754_zero false) /\ SFadd prec emax (S754_zero false) (SFopp a) = (S754_zero false)).
Proof. destruct a as [[]|[]| |s m e]; simpl; auto. Qed.

(** The prediction from a single rater, on specification floats. *)
Lemma sole_rater_opp (tm s d : spec_float) :
  let D := SFadd prec emax (S754_zero false) s in
  let D' := SFadd prec emax (S754_zero false) (SFopp s) in
  let p := SFadd prec emax tm
             (SFdiv prec emax (SFadd prec emax (S754_zero false) (SFmul prec emax s d)) D) in
  let p' := SFadd prec emax tm
              (SFdiv prec emax (SFadd prec emax (S754_zero false) (SFmul prec emax (SFopp s) d)) D') in
  SFeqb D' (S754_zero false) = SFeqb D (S754_zero false) /\
  (SFeqb D (S754_zero false) = false ->
   p' = p \/ (SFeqb p (S754_zero false) = true /\ SFeqb p' (S754_zero false) = true)).
Proof.
  cbv zeta. rewrite SFmul_opp_l. generalize (SFmul prec emax s d). intros a.
  destruct (SFadd_zero_opp a) as [E|[E1 E2]].
  - rewrite E. generalize (SFadd prec emax (S754_zero false) a). intros n.
    destruct s as [[]|[]| |[] ms es];
      try (split; [reflexivity | intros C; discriminate C]).
    + split; [reflexivity|]. intros _. left.
      change (SFadd prec emax (S754_zero false) (SFopp (S754_infinity true))) with (SFopp (S754_infinity true)).
      change (SFadd prec emax (S754_zero false) (S754_infinity true)) with (S754_infinity true).
      now rewrite SFdiv_opp_opp.
    + split; [reflexivity|]. intros _. left.
      change (SFadd prec emax (S754_zero false) (SFopp (S754_infinity false))) with (SFopp (S754_infinity false)).
      change (SFadd prec emax (S754_zero false) (S754_infinity false)) with (S754_infinity false).
      now rewrite SFdiv_opp_opp.
    + split; [reflexivity|]. intros _. left.
      destruct n, tm; reflexivity.
    + split; [reflexivity|]. intros _. left.
      change (SFadd prec emax (S754_zero false) (SFopp (S754_finite true ms es)))
        with (SFopp (S754_finite true ms es)).
      change (SFadd prec emax (S754_zero false) (S754_finite true ms es)) with (S754_finite true ms es).
      now rewrite SFdiv_opp_opp.
    + split; [reflexivity|]. intros _. left.
      change (SFadd prec emax (S754_zero false) (SFopp (S754_finite false ms es)))
        with (SFopp (S754_finite false ms es)).
      change (SFadd prec emax (S754_zero false) (S754_finite false ms es)) with (S754_finite false ms es).
      now rewrite SFdiv_opp_opp.
  - rewrite E1, E2.
    destruct s as [[]|[]| |[] ms es];
      try (split; [reflexivity | intros C; discriminate C]);
      (split; [reflexivity|]); intros _;
      destruct tm as [[]|[]| |[] mt et]; simpl; auto.
Qed.

Lemma shr_1_nonneg (mrs : shr_record) :
  (0 <= shr_m mrs)%Z -> (0 <= shr_m (shr_1 mrs))%Z.
Proof. destruct mrs as [m r s]. destruct m as [|[p|p|]|p]; simpl; lia. Qed.

Lemma iter_shr_1_nonneg (p : positive) (mrs : shr_record) :
  (0 <= shr_m mrs)%Z -> (0 <= shr_m (SpecFloat.iter_pos shr_1 p mrs))%Z.
Proof.
  revert mrs. induction p as [p IH|p IH|]; simpl; intros mrs H.
  - apply IH, IH, shr_1_nonneg, H.
  - apply IH, IH, H.
  - apply shr_1_nonneg, H.
Qed.

Lemma shr_fexp_nonneg (m e : Z) (l : location) :
  (0 <= m)%Z -> (0 <= shr_m (fst (shr_fexp prec emax m e l)))%Z.
Proof.
  intros H. unfold shr_fexp, shr.
  assert (H0 : (0 <= shr_m (shr_record_of_loc m l))%Z)
    by (destruct l as [|[]]; exact H).
  destruct (fexp prec emax (Zdigits2 m + e) - e)%Z; simpl; auto.
  apply iter_shr_1_nonneg, H0.
Qed.

Lemma round_nearest_even_nonneg (m : Z) (l : location) :
  (0 <= m)%Z -> (0 <= round_nearest_even m l)%Z.
Proof.
  intros H. destruct l as [|[]]; simpl; try lia. destruct (Z.even m); lia.
Qed.

(** Rounding a mantissa that is not negative never gives NaN. *)
Lemma binary_round_aux_number (s : bool) (m e : Z) (l : location) :
  (0 <= m)%Z -> binary_round_aux prec emax s m e l <> S754_nan.
Proof.
  intros H. unfold binary_round_aux.
  pose proof (shr_fexp_nonneg m e l H) as H1.
  destruct (shr_fexp prec emax m e l) as [mrs' e']. simpl in H1.
  pose proof (shr_fexp_nonneg _ e' loc_Exact
                (round_nearest_even_nonneg _ (loc_of_shr_record mrs') H1)) as H2.
  destruct (shr_fexp prec emax _ e' loc_Exact) as [mrs'' e'']. simpl in H2.
  destruct (shr_m mrs''); try discriminate; [|lia].
  destruct (Z.leb e'' (emax - prec)); discriminate.
Qed.

(** A number divided by a finite number other than 0 is a number. *)
Lemma SFdiv_number (x : spec_float) (sy : bool) (my : positive) (ey : Z) :
  x <> S754_nan -> SFdiv prec emax x (S754_finite sy my ey) <> S754_nan.
Proof.
  intros Hx. destruct x as [sx|sx| |sx mx ex]; simpl; try discriminate; [congruence|].
  unfold SFdiv_core_binary.
  set (m' := match (ex - ey - _)%Z with Z0 => _ | Zpos _ => _ | Zneg _ => _ end).
  assert (Hm : (0 <= m')%Z).
  { unfold m'. destruct (ex - ey - _)%Z; try lia. apply Z.shiftl_nonneg. lia. }
  pose proof (Z.div_pos m' (Zpos my) Hm ltac:(lia)) as Hq.
  unfold Z.div in Hq. destruct (Z.div_eucl m' (Zpos my)) as [q r]. simpl in Hq.
  apply binary_round_aux_number, Hq.
Qed.

End FloatRound.

Section MissingRatings.
Import FloatOrder FloatRound.

Lemma mean_all_nan (l : list float) :
  Forall (fun x => isna x = true) l -> isna (mean l) = true.
Proof.
  intros H. unfold mean.
  rewrite (filter_none (fun x => negb (isna x)) l).
  - vm_compute. reflexivity.
  - apply Forall_forall. intros x Hx. rewrite Forall_forall in H.
    now rewrite (H x Hx).
Qed.

Lemma mean_single (x : float) : isna x = false -> isna (mean [x]) = false.
Proof.
  intros H. unfold mean. cbn [filter]. rewrite H. cbn [negb length Z.of_nat].
  apply isna_false. apply isna_false in H.
  change (Prim2SF (PrimFloat.div (PrimFloat.add 0 x) 1) <> S754_nan).
  rewrite div_spec, add_spec.
  change (Prim2SF 1) with (S754_finite false 4503599627370496 (-52)).
  change (Prim2SF 0) with (S754_zero false).
  apply SFdiv_number.
  destruct (Prim2SF x) as [[]|[]| |sx mx ex]; simpl; congruence.
Qed.

(** A user whose ratings are all missing has no group that the pivot
    table keeps. *)
Lemma kept_all_nan (ratings : list (row float)) (u : Z) (r : row float) :
  (forall r', In r' ratings -> userId r' = u -> isna (rating r') = true) ->
  In r ratings -> userId r = u -> kept ratings r = false.
Proof.
  intros Hall Hr Hu. unfold kept, agg_cell.
  destruct (filter _ ratings) as [|g0 g] eqn:Eg; [reflexivity|].
  rewrite mean_all_nan; [reflexivity|].
  apply Forall_forall. intros x Hx. apply in_map_iff in Hx.
  destruct Hx as (r' & <- & Hr'). rewrite <- Eg in Hr'.
  apply filter_In in Hr'. destruct Hr' as [Hin Hg].
  apply andb_true_iff in Hg. destruct Hg as [Hg _]. apply Z.eqb_eq in Hg.
  apply Hall; [exact Hin | congruence].
Qed.

(** A rating that is a number, alone in its group, is kept. *)
Lemma kept_single (ratings : list (row float)) (r : row float) :
  filter (fun r' => (userId r' =? userId r)%Z && (movieId r' =? movieId r)%Z) ratings = [r] ->
  isna (rating r) = false -> kept ratings r = true.
Proof.
  intros Hg Hn. unfold kept, agg_cell. rewrite Hg. cbn [map].
  now rewrite (mean_single _ Hn).
Qed.
End MissingRatings.

(** X1.  Which users the similarity matrices list, in binary64.  A user
    whose ratings are all missing (NaN) is not in the matrix that
    [pearson_similarity_matrix] or [cosine_similarity_matrix] returns,
    although [ratings] has rows of that user, and asking for the
    neighbours of that user raises KeyError.  A user with a rating that is
    a number, for a movie that user rated once, is in the matrix. *)
Theorem similarity_matrix_users :
  forall (ratings : list (row float)) (df : frame float) (u : Z),
    pearson_similarity_matrix ratings = Ok df \/
    cosine_similarity_matrix ratings = Ok df ->
    ((forall r, In r ratings -> userId r = u -> isna (rating r) = true) ->
     ~ In u (index df) /\
     forall n, get_top_similar_users df u n = Raise KeyError) /\
    (forall r, In r ratings -> userId r = u -> isna (rating r) = false ->
               filter (fun r' => (userId r' =? u)%Z && (movieId r' =? movieId r)%Z) ratings
               = [r] ->
               In u (index df)).
Proof.
  intros ratings df u H.
  destruct (similarity_frame_returned ratings df H) as ((Hc & _) & Hi).
  destruct (user_movie_matrix_shape float float_num ratings) as (_ & _ & Hu & _).
  split.
  - intros Hall.
    assert (Hout : ~ In u (index df)).
    { rewrite Hi, Hu. intros (r & Hr & Eu & Hk).
      rewrite (kept_all_nan ratings u r Hall Hr Eu) in Hk. discriminate. }
    split; [exact Hout|]. intros n. unfold get_top_similar_users.
    rewrite getitem_absent by (rewrite Hc; exact Hout). reflexivity.
  - intros r Hr Eu Hn Hg. rewrite Hi, Hu. exists r. split; [exact Hr|].
    split; [exact Eu|]. apply kept_single; [rewrite Eu; exact Hg | exact Hn].
Qed.

Lemma similarity_matrix_users_witness :
  exists df,
    cosine_similarity_matrix missing_ratings = Ok df /\
    (~ In 2%Z (index df) /\
     forall n, get_top_similar_users df 2 n = Raise KeyError) /\
    In 1%Z (index df).
Proof.
  eexists. split; [vm_compute; reflexivity|].
  match goal with
  | |- _ /\ In _ (index ?df) =>
      assert (H : pearson_similarity_matrix missing_ratings = Ok df \/
                  cosine_similarity_matrix missing_ratings = Ok df)
        by (right; vm_compute; reflexivity)
  end.
  split.
  - apply (proj1 (similarity_matrix_users missing_ratings _ 2%Z H)).
    intros r [<-|[<-|[<-|[<-|[<-|[]]]]]]; simpl; intros E;
      try discriminate E; reflexivity.
  - apply (proj2 (similarity_matrix_users missing_ratings _ 1%Z H)
             (Row 1 10 4%float "a")).
    + simpl. auto.
    + reflexivity.
    + reflexivity.
    + reflexivity.
Defined.

(** X2.  On a matrix returned by either similarity function,
    [get_top_similar_users] raises [KeyError] for a user that does not
    label it and nothing else; for a user that labels it and [0 <= n] it
    returns [min n (number of users)] entries, each user at most once. *)
Theorem top_similar_users_of_computed_matrix :
  forall (F : Type) (N : PyNum F) (ratings : list (row F)) (df : frame F) (t n : Z),
    pearson_similarity_matrix ratings = Ok df \/
    cosine_similarity_matrix ratings = Ok df ->
    (~ In t (index df) -> get_top_similar_users df t n = Raise KeyError) /\
    (In t (index df) ->
     exists nb, get_top_similar_users df t n = Ok nb /\
                NoDup (map fst nb) /\
                (forall u, In u (map fst nb) -> In u (index df)) /\
                ((0 <= n)%Z ->
                 length nb = Nat.min (Z.to_nat n) (length (index df)))).
Proof.
  intros F N ratings df t n H.
  destruct (similarity_frame_returned ratings df H) as (Hsf & _).
  pose proof Hsf as (Hc & Hnd & Hsq & Hd). split.
  - intros Habs. unfold get_top_similar_users.
    rewrite getitem_absent by now rewrite Hc. reflexivity.
  - intros Hin.
    destruct (getitem_present df t) as [col Hcol]; [now rewrite Hc | now rewrite Hc |].
    destruct (similarity_frame_column df t col Hsf Hcol) as (Hlab & _).
    exists (slice_to n (sort_values_desc col)). split.
    { unfold get_top_similar_users. now rewrite Hcol. }
    destruct (slice_to_prefix n (sort_values_desc col)) as [m Hm].
    assert (Hperm : Permutation (map fst (sort_values_desc col)) (index df)).
    { rewrite <- Hlab. apply Permutation_map, sort_values_desc_perm. }
    split; [|split].
    + rewrite Hm, <- firstn_map. apply NoDup_firstn.
      eapply Permutation_NoDup; [apply Permutation_sym, Hperm | exact Hnd].
    + intros u Hu. rewrite Hm, <- firstn_map in Hu. apply in_firstn in Hu.
      eapply Permutation_in; eauto.
    + intros Hn. rewrite slice_to_nonneg by exact Hn.
      rewrite length_firstn, <- (Permutation_length Hperm), length_map. reflexivity.
Qed.

Lemma top_similar_users_of_computed_matrix_witness :
  (~ In 2%Z [1; 2]%Z ->
   get_top_similar_users (Frame [1; 2]%Z [1; 2]%Z [[0; nan]; [nan; 0]]%float) 2 1
   = Raise KeyError) /\
  (In 2%Z [1; 2]%Z ->
   exists nb,
     get_top_similar_users (Frame [1; 2]%Z [1; 2]%Z [[0; nan]; [nan; 0]]%float) 2 1 = Ok nb /\
     NoDup (map fst nb) /\
     (forall u, In u (map fst nb) -> In u [1; 2]%Z) /\
     ((0 <= 1)%Z -> length nb = Nat.min (Z.to_nat 1) (length [1; 2]%Z))).
Proof.
  apply (top_similar_users_of_computed_matrix float float_num flat_ratings
           (Frame [1; 2]%Z [1; 2]%Z [[0; nan]; [nan; 0]]%float) 2%Z 1%Z).
  left. vm_compute. reflexivity.
Defined.

(** In a sorted column the target user stands behind every entry that is
    strictly greater than its own. *)
Lemma target_beyond_greater {F : Type} {N : PyNum F} {L : OrderLaws F}
      (col : series F) (t : Z) (s_t : F) (k : nat) :
  NoDup (map fst col) -> In (t, s_t) col ->
  (k <= length (filter (fun e => (s_t <? snd e)%num) col))%nat ->
  ~ In t (map fst (firstn k (sort_values_desc col))).
Proof.
  intros Hnd Ht Hcount Hin.
  apply in_map_iff in Hin. destruct Hin as ([u s] & Hu & Hin). simpl in Hu. subst u.
  assert (Hs : s = s_t).
  { apply (NoDup_map_fst_inj col t s s_t); auto.
    apply (Permutation_in _ (sort_values_desc_perm col)).
    eapply in_firstn; eauto. }
  subst s.
  pose proof (greater_before _ _ _ (sort_values_desc_descending col) Hin) as Hlt.
  simpl in Hlt.
  rewrite (filter_length_perm _ _ _ (sort_values_desc_perm col)) in Hlt. lia.
Qed.

(** X3.  On a matrix returned by either similarity function the target
    user's own score is the 0 of the diagonal: the [k] most similar users
    do not include the target user whenever at least [k] users have a
    strictly positive similarity to it. *)
Theorem computed_matrix_excludes_target :
  forall (F : Type) (N : PyNum F) (L : OrderLaws F)
         (ratings : list (row F)) (df : frame F) (t k : Z) (col nb : series F),
    pearson_similarity_matrix ratings = Ok df \/
    cosine_similarity_matrix ratings = Ok df ->
    getitem df t = Ok col ->
    (0 <= k)%Z ->
    (k <= Z.of_nat (length (filter (fun e => (zero <? snd e)%num) col)))%Z ->
    get_top_similar_users df t k = Ok nb ->
    ~ In t (map fst nb).
Proof.
  intros F N L ratings df t k col nb H Hcol Hk Hcount Hnb.
  destruct (similarity_frame_returned ratings df H) as (Hsf & _).
  destruct (similarity_frame_column df t col Hsf Hcol) as (Hlab & Hself).
  apply get_top_similar_users_inv in Hnb. destruct Hnb as (col' & Hcol' & ->).
  assert (col' = col) by congruence. subst col'.
  rewrite slice_to_nonneg by exact Hk.
  apply (target_beyond_greater col t zero); auto.
  - rewrite Hlab. apply Hsf.
  - lia.
Qed.

Lemma computed_matrix_excludes_target_witness :
  ~ In 1%Z (map fst [(2%Z, 0.53567158400558013%float)]).
Proof.
  apply (computed_matrix_excludes_target float float_num float_order spec_ratings
           (Frame [1; 2]%Z [1; 2]%Z
                  [[0; 0.53567158400558013]; [0.53567158400558013; 0]]%float)
           1%Z 1%Z [(1%Z, 0%float); (2%Z, 0.53567158400558013%float)]
           [(2%Z, 0.53567158400558013%float)]).
  - right. vm_compute. reflexivity.
  - reflexivity.
  - lia.
  - vm_compute. discriminate.
  - vm_compute. reflexivity.
Defined.

(** X4.  A shorter neighbourhood is the beginning of a longer one: for
    [0 <= k <= m] the [k] most similar users are the first [k] of the [m]
    most similar users. *)
Theorem top_similar_users_prefix :
  forall (F : Type) (N : PyNum F) (df : frame F) (t k m : Z) (a b : series F),
    (0 <= k <= m)%Z ->
    get_top_similar_users df t k = Ok a ->
    get_top_similar_users df t m = Ok b ->
    a = firstn (Z.to_nat k) b.
Proof.
  intros F N df t k m a b Hkm Ha Hb.
  apply get_top_similar_users_inv in Ha, Hb.
  destruct Ha as (col & Hcol & ->), Hb as (col' & Hcol' & ->).
  assert (col' = col) by congruence. subst col'.
  rewrite !slice_to_nonneg by lia. rewrite firstn_firstn.
  f_equal. lia.
Qed.

Lemma top_similar_users_prefix_witness :
  [(3%Z, 0.25%float)] =
  firstn (Z.to_nat 1) [(3%Z, 0.25%float); (1%Z, 0%float)].
Proof.
  apply (top_similar_users_prefix float float_num ex_sim 1%Z 1%Z 2%Z).
  - lia.
  - vm_compute. reflexivity.
  - vm_compute. reflexivity.
Defined.

(* ================================================================== *)
(** * Further properties: predict_ratings *)

(** X5.  [predict_ratings] raises exactly what the lookup of the target
    user's column raises and returns a PredictionSet whenever the lookup
    succeeds: the lookups in the two dicts built by its first loop never
    fail. *)
Theorem predict_ratings_raises_as_lookup :
  forall (F : Type) (N : PyNum F) (ratings : list (row F)) (df : frame F) (t : Z),
    (forall e, predict_ratings ratings df t = Raise e <-> getitem df t = Raise e) /\
    ((exists col, getitem df t = Ok col) <->
     (exists d, predict_ratings ratings df t = Ok d)).
Proof.
  intros F N ratings df t. unfold predict_ratings, get_top_similar_users.
  destruct (getitem df t) as [col|e'] eqn:E; cbn [bind].
  - rewrite predict_with_prediction_set. split.
    + intros e. split; discriminate.
    + split; eauto.
  - split.
    + intros e. split; congruence.
    + split; intros [x Hx]; discriminate.
Qed.

Lemma dict_set_NoDup {K V} (keq : K -> K -> bool)
      (keq_eq : forall a b, keq a b = true <-> a = b)
      (k : K) (v : V) (d : dict K V) :
  NoDup (map fst d) -> NoDup (map fst (dict_set keq k v d)).
Proof.
  induction d as [|[k0 v0] d IH]; simpl; intros H.
  - repeat constructor. auto.
  - inversion H as [|? ? Hk0 Hd]; subst.
    destruct (keq k0 k) eqn:E; simpl; [now constructor|].
    constructor; auto. intros C. apply (dict_set_keys keq) in C.
    destruct C as [->|C]; auto.
    rewrite (proj2 (keq_eq k k) eq_refl) in E. discriminate.
Qed.

Lemma dict_get_In {K V} (keq : K -> K -> bool)
      (keq_eq : forall a b, keq a b = true <-> a = b)
      (k : K) (v : V) (d : dict K V) :
  NoDup (map fst d) -> In (k, v) d -> dict_get keq k d = Some v.
Proof.
  induction d as [|[k0 v0] d IH]; simpl; intros Hnd Hin; [contradiction|].
  inversion Hnd as [|? ? Hk0 Hd]; subst.
  destruct Hin as [E|Hin].
  - inversion E; subst. now rewrite (proj2 (keq_eq k k) eq_refl).
  - destruct (keq k0 k) eqn:E; [|now apply IH].
    apply keq_eq in E. subst. exfalso. apply Hk0. apply in_map_iff. now exists (k, v).
Qed.

Lemma prediction_set_NoDup {F : Type} {N : PyNum F}
      (ratings : list (row F)) (su : series F) (t : Z) (l : list (Z * string)) :
  NoDup (map fst (prediction_set ratings su t l)).
Proof.
  unfold prediction_set.
  assert (G : forall d, NoDup (map fst d) ->
                        NoDup (map fst (fold_left
                          (fun d mv =>
                             if neb (similarity_sum ratings su (fst mv)) zero
                             then dict_set String.eqb (snd mv)
                                           (predicted_rating ratings su t (fst mv)) d
                             else d) l d))).
  { induction l as [|mv l IH]; intros d Hd; simpl; auto.
    apply IH. destruct (neb (similarity_sum ratings su (fst mv)) zero); auto.
    now apply (dict_set_NoDup String.eqb String.eqb_eq). }
  apply G. constructor.
Qed.

(** X6.  The PredictionSet returned by [predict_ratings] holds every
    title at most once, so looking a title up gives the value listed with
    it, and it has no more entries than [ratings] has rows. *)
Theorem prediction_set_titles_once :
  forall (F : Type) (N : PyNum F) (ratings : list (row F)) (df : frame F)
         (t : Z) (d : dict string F),
    predict_ratings ratings df t = Ok d ->
    NoDup (map fst d) /\
    (forall title v, In (title, v) d -> dict_get String.eqb title d = Some v) /\
    (length d <= length ratings)%nat.
Proof.
  intros F N ratings df t d Hd.
  destruct (get_top_similar_users df t 40) as [su|e] eqn:Hsu.
  2:{ unfold predict_ratings in Hd. rewrite Hsu in Hd. discriminate. }
  rewrite (predict_ratings_unfold ratings df t su Hsu) in Hd. inversion Hd; subst d.
  pose proof (prediction_set_NoDup ratings su t (unseen_movies ratings su t)) as Hnd.
  split; [exact Hnd|]. split.
  - intros title v Hin. now apply (dict_get_In String.eqb String.eqb_eq).
  - rewrite <- (length_map fst).
    transitivity (length (map snd (unseen_movies ratings su t))).
    + apply NoDup_incl_length; [exact Hnd|].
      intros k Hk. now apply prediction_set_keys in Hk.
    + rewrite length_map.
      transitivity (length (map (fun r : row F => (movieId r, title r)) ratings)).
      * apply NoDup_incl_length; [apply unseen_movies_NoDup|].
        intros [m ti] Hm. apply unseen_movies_spec in Hm.
        destruct Hm as (r & Hr & _ & <- & <- & _). apply in_map_iff. now exists r.
      * now rewrite length_map.
Qed.

Lemma prediction_set_titles_once_witness :
  NoDup (map fst [("Emma (1996)"%string, 2%float)]) /\
  (forall title v, In (title, v) [("Emma (1996)"%string, 2%float)] ->
                   dict_get String.eqb title [("Emma (1996)"%string, 2%float)] = Some v) /\
  (length [("Emma (1996)"%string, 2%float)] <= length emma_ratings)%nat.
Proof.
  apply (prediction_set_titles_once float float_num emma_ratings half_sim 1%Z).
  vm_compute. reflexivity.
Defined.

(** X7.  A neighbour without any row in [ratings] (a user of a
    similarity matrix computed on other data) changes nothing: the
    prediction from a neighbourhood is the prediction from its members
    that have ratings. *)
Theorem predict_with_rated_neighbours :
  forall (F : Type) (N : PyNum F) (ratings : list (row F)) (su : series F) (t : Z),
    predict_with ratings su t =
    predict_with ratings (filter (fun e => memZ (fst e) (map userId ratings)) su) t.
Proof.
  intros F N ratings su t. rewrite !predict_with_prediction_set. f_equal.
  set (su' := filter (fun e => memZ (fst e) (map userId ratings)) su).
  assert (Hcand : unseen_movies ratings su' t = unseen_movies ratings su t).
  { unfold unseen_movies. f_equal. f_equal. f_equal.
    apply filter_ext_in. intros r Hr.
    destruct (memZ (userId r) (map fst su)) eqn:E1.
    - apply memZ_In. apply memZ_In in E1. apply in_map_iff in E1.
      destruct E1 as (e & Ee & He). apply in_map_iff. exists e. split; auto.
      apply filter_In. split; auto. apply memZ_In. rewrite Ee.
      apply in_map_iff. now exists r.
    - apply not_true_iff_false. intros C. apply memZ_In in C.
      apply in_map_iff in C. destruct C as (e & Ee & He).
      apply filter_In in He. destruct He as [He _].
      assert (memZ (userId r) (map fst su) = true).
      { apply memZ_In, in_map_iff. now exists e. }
      congruence. }
  rewrite Hcand. unfold prediction_set.
  assert (Hnone : forall (e : Z * F) m, memZ (fst e) (map userId ratings) = false ->
                              rating_of ratings (fst e) m = None).
  { intros e m He. unfold rating_of.
    assert (Hg : get_user_ratings ratings (fst e) = []).
    { unfold get_user_ratings. apply filter_none. apply Forall_forall.
      intros r Hr. apply Z.eqb_neq. intros C.
      apply not_true_iff_false in He. apply He. apply memZ_In.
      rewrite <- C. apply in_map_iff. now exists r. }
    now rewrite Hg. }
  apply fold_left_ext_in. intros d [m title] _. simpl.
  assert (Hws : weighted_sum ratings su' m = weighted_sum ratings su m).
  { unfold weighted_sum, su'. f_equal. apply flat_map_filter.
    intros e _ He. now rewrite (Hnone e m He). }
  assert (Hss : similarity_sum ratings su' m = similarity_sum ratings su m).
  { unfold similarity_sum, su'. f_equal. apply flat_map_filter.
    intros e _ He. now rewrite (Hnone e m He). }
  unfold predicted_rating. rewrite Hws, Hss. reflexivity.
Qed.

Lemma flat_map_nil {A B} (f : A -> list B) (l : list A) :
  (forall x, In x l -> f x = []) -> flat_map f l = [].
Proof.
  induction l as [|x l IH]; intros H; simpl; auto.
  rewrite (H x) by now left. apply IH. intros y Hy. apply H. now right.
Qed.

Section SoleRater.
Context {F : Type} {N : PyNum F}.
Local Open Scope num_scope.

(** The two sums for a movie that a single neighbour has rated. *)
Lemma sole_rater_sums (ratings : list (row F)) (l1 l2 : series F) (u m : Z) (s r : F) :
  rating_of ratings u m = Some r ->
  (forall e, In e (l1 ++ l2) -> rating_of ratings (fst e) m = None) ->
  weighted_sum ratings (l1 ++ (u, s) :: l2) m = zero + s * (r - mean_rating ratings u) /\
  similarity_sum ratings (l1 ++ (u, s) :: l2) m = zero + s.
Proof.
  intros Hr Hnone. unfold weighted_sum, similarity_sum.
  rewrite !flat_map_app. cbn [flat_map fst snd]. rewrite Hr.
  rewrite !flat_map_nil;
    try (intros e He; rewrite Hnone; [reflexivity | apply in_or_app; auto]).
  split; reflexivity.
Qed.

Lemma unseen_movies_labels (ratings : list (row F)) (su su' : series F) (t : Z) :
  map fst su = map fst su' ->
  unseen_movies ratings su t = unseen_movies ratings su' t.
Proof. intros H. unfold unseen_movies. now rewrite H. Qed.
End SoleRater.

Lemma sole_rater_sign (tm s d : float) :
  PrimFloat.eqb (0 + (- s)) 0 = PrimFloat.eqb (0 + s) 0 /\
  (PrimFloat.eqb (0 + s) 0 = false ->
   same_number (tm + (0 + s * d) / (0 + s))
               (tm + (0 + (- s) * d) / (0 + (- s))))%float.
Proof.
  pose proof (FloatRound.sole_rater_opp (Prim2SF tm) (Prim2SF s) (Prim2SF d)) as H.
  cbv zeta in H. destruct H as [H1 H2].
  rewrite !FloatAxioms.eqb_spec, !add_spec, !opp_spec.
  change (Prim2SF 0) with (S754_zero false).
  split; [exact H1|]. intros HD. unfold same_number.
  rewrite !FloatAxioms.eqb_spec, !add_spec, !div_spec, !add_spec, !mul_spec, !opp_spec.
  change (Prim2SF 0) with (S754_zero false).
  destruct (H2 HD) as [E|E]; [left | right; exact E].
  apply Prim2SF_inj.
  rewrite !add_spec, !div_spec, !add_spec, !mul_spec, !opp_spec.
  change (Prim2SF 0) with (S754_zero false). exact E.
Qed.

(** X8.  In binary64, when a single neighbour has rated a candidate
    movie, negating that neighbour's similarity does not change the
    prediction (a zero may change its sign): the sign cancels between the
    weighted sum and the similarity sum, so a negatively correlated sole
    rater counts like a positively correlated one.  There is an entry for
    the one similarity exactly when there is one for the other. *)
Theorem single_rater_sign_cancels :
  forall (ratings : list (row float)) (l1 l2 : series float) (u t m : Z)
         (s r : float) (title : string),
    rating_of ratings u m = Some r ->
    (forall e, In e (l1 ++ l2) -> rating_of ratings (fst e) m = None) ->
    In (m, title) (unseen_movies ratings (l1 ++ (u, s) :: l2) t) ->
    (forall m', In (m', title) (unseen_movies ratings (l1 ++ (u, s) :: l2) t) -> m' = m) ->
    exists d d',
      predict_with ratings (l1 ++ (u, s) :: l2) t = Ok d /\
      predict_with ratings (l1 ++ (u, (- s)%float) :: l2) t = Ok d' /\
      same_entry (dict_get String.eqb title d) (dict_get String.eqb title d').
Proof.
  intros ratings l1 l2 u t m s r title Hr Hnone Hin Huniq.
  set (su := l1 ++ (u, s) :: l2) in *.
  set (su' := l1 ++ (u, (- s)%float) :: l2).
  assert (Hlab : unseen_movies ratings su t = unseen_movies ratings su' t).
  { apply unseen_movies_labels. unfold su, su'. rewrite !map_app. reflexivity. }
  exists (prediction_set ratings su t (unseen_movies ratings su t)),
         (prediction_set ratings su' t (unseen_movies ratings su' t)).
  split; [apply predict_with_prediction_set|].
  split; [apply predict_with_prediction_set|].
  rewrite (prediction_set_get ratings su t _ m title
             (unseen_movies_NoDup ratings su t) Hin Huniq).
  rewrite <- Hlab.
  rewrite (prediction_set_get ratings su' t _ m title
             (unseen_movies_NoDup ratings su t) Hin Huniq).
  unfold predicted_rating.
  destruct (sole_rater_sums ratings l1 l2 u m s r Hr Hnone) as [Hw Hs].
  destruct (sole_rater_sums ratings l1 l2 u m (- s)%float r Hr Hnone) as [Hw' Hs'].
  fold su in Hw, Hs. fold su' in Hw', Hs'. rewrite Hw, Hs, Hw', Hs'.
  destruct (sole_rater_sign (mean_rating ratings t) s (r - mean_rating ratings u)%float)
    as [HD Hp].
  unfold neb. cbn [eqb add sub mul div float_num] in *.
  change (@zero float float_num) with 0%float.
  rewrite HD. destruct (PrimFloat.eqb (0 + s) 0) eqn:E; cbn [negb same_entry].
  - exact I.
  - apply Hp. reflexivity.
Qed.

Lemma single_rater_sign_cancels_witness :
  exists d d',
    predict_with sole_ratings ([] ++ (2%Z, (-0.5)%float) :: [(1%Z, 0%float)]) 1 = Ok d /\
    predict_with sole_ratings ([] ++ (2%Z, (- (-0.5))%float) :: [(1%Z, 0%float)]) 1 = Ok d' /\
    same_entry (dict_get String.eqb "b"%string d) (dict_get String.eqb "b"%string d').
Proof.
  apply (single_rater_sign_cancels sole_ratings [] [(1%Z, 0%float)] 2%Z 1%Z 20%Z
           (-0.5)%float 5%float "b"%string).
  - reflexivity.
  - intros e [<-|[]]. reflexivity.
  - vm_compute. auto.
  - intros m' H. vm_compute in H. destruct H as [H|[]]. now inversion H.
Defined.

(* ================================================================== *)
(** * Further properties: recommend_movies *)

(** X9.  The top [n] are the first [n] of the top [m] for [0 <= n <= m];
    asking for more recommendations than there are predictions gives them
    all; a negative [n] gives all but the last [-n] of them. *)
Theorem recommend_movies_slices :
  forall (F : Type) (N : PyNum F) (predictions : dict string F) (n m : Z),
    ((0 <= n <= m)%Z ->
     recommend_movies predictions n
     = firstn (Z.to_nat n) (recommend_movies predictions m)) /\
    ((Z.of_nat (length predictions) <= n)%Z ->
     recommend_movies predictions n
     = recommend_movies predictions (Z.of_nat (length predictions))) /\
    ((n < 0)%Z ->
     recommend_movies predictions n
     = firstn (length predictions - Z.to_nat (- n))
              (recommend_movies predictions (Z.of_nat (length predictions)))).
Proof.
  intros F N predictions n m. unfold recommend_movies.
  assert (Hlen : length (sort_desc snd predictions) = length predictions)
    by apply Permutation_length, sort_desc_perm.
  assert (Hall : slice_to (Z.of_nat (length predictions)) (sort_desc snd predictions)
                 = sort_desc snd predictions).
  { rewrite slice_to_nonneg by lia. apply firstn_all2. lia. }
  split; [|split].
  - intros H. rewrite !slice_to_nonneg by lia. rewrite firstn_firstn. f_equal. lia.
  - intros H. rewrite Hall, slice_to_nonneg by lia. apply firstn_all2. lia.
  - intros H. rewrite Hall, slice_to_neg by lia. now rewrite Hlen.
Qed.

Lemma recommend_movies_slices_witness :
  recommend_movies three_predictions 1
  = firstn 1 (recommend_movies three_predictions 2) /\
  recommend_movies three_predictions 5 = recommend_movies three_predictions 3 /\
  recommend_movies three_predictions (-1)
  = firstn (3 - 1) (recommend_movies three_predictions 3).
Proof.
  split; [|split].
  - apply (proj1 (recommend_movies_slices float float_num three_predictions 1%Z 2%Z)). lia.
  - apply (proj1 (proj2 (recommend_movies_slices float float_num three_predictions 5%Z 0%Z))).
    simpl. lia.
  - apply (proj2 (proj2 (recommend_movies_slices float float_num three_predictions (-1)%Z 0%Z))).
    lia.
Defined.

Section Stability.
Context {F : Type} {N : PyNum F} {A : Type} (key : A -> F) (p : A -> bool).

Lemma filter_insert_desc (x : A) (l : list A) :
  (forall y, In y l -> p x = true -> p y = true -> (key x <? key y)%num = false) ->
  filter p (insert_desc key x l) = filter p (x :: l).
Proof.
  induction l as [|y l IH]; intros H; simpl; auto.
  destruct (key x <? key y)%num eqn:E; simpl; auto.
  rewrite IH by (intros z Hz; apply H; now right). simpl.
  destruct (p x) eqn:Px, (p y) eqn:Py; auto.
  rewrite (H y) in E by (auto; now left). discriminate.
Qed.

Lemma filter_sort_desc (l : list A) :
  (forall a b, In a l -> In b l -> p a = true -> p b = true ->
               (key a <? key b)%num = false) ->
  filter p (sort_desc key l) = filter p l.
Proof.
  induction l as [|x l IH]; intros H; simpl; auto.
  rewrite filter_insert_desc.
  - simpl. rewrite IH; auto. intros a b Ha Hb. apply H; now right.
  - intros y Hy. apply H; [now left|].
    right. apply (Permutation_in _ (sort_desc_perm key l)). exact Hy.
Qed.

Lemma filter_firstn_prefix (m : nat) (l : list A) :
  exists k, filter p (firstn m l) = firstn k (filter p l).
Proof.
  revert m. induction l as [|x l IH]; intros [|m]; simpl;
    try (exists 0%nat; reflexivity).
  destruct (IH m) as [k Hk]. destruct (p x).
  - exists (S k). simpl. now rewrite Hk.
  - exists k. exact Hk.
Qed.
End Stability.

(** X10.  The sort of [recommend_movies] is stable: among predictions
    none of which is smaller than another (predictions of equal rating),
    the recommendations keep the order of the PredictionSet.  Stated for
    predicted ratings that are numbers. *)
Theorem recommend_movies_stable :
  forall (F : Type) (N : PyNum F) (predictions : dict string F) (n : Z)
         (p : string * F -> bool),
    Forall (fun e => isna (snd e) = false) predictions ->
    (forall a b, In a predictions -> In b predictions ->
                 p a = true -> p b = true -> (snd a <? snd b)%num = false) ->
    exists k, filter p (recommend_movies predictions n)
              = firstn k (filter p predictions).
Proof.
  intros F N predictions n p _ H. unfold recommend_movies.
  destruct (slice_to_prefix n (sort_desc snd predictions)) as [m ->].
  destruct (filter_firstn_prefix p m (sort_desc snd predictions)) as [k Hk].
  exists k. rewrite Hk. now rewrite filter_sort_desc.
Qed.

Lemma recommend_movies_stable_witness :
  exists k,
    filter (fun e => PrimFloat.eqb (snd e) 1.5) (recommend_movies tied_predictions 10)
    = firstn k (filter (fun e => PrimFloat.eqb (snd e) 1.5) tied_predictions).
Proof.
  apply (recommend_movies_stable float float_num tied_predictions 10%Z
           (fun e => PrimFloat.eqb (snd e) 1.5)).
  - repeat constructor.
  - intros a b Ha Hb. simpl in Ha, Hb.
    destruct Ha as [<-|[<-|[<-|[]]]], Hb as [<-|[<-|[<-|[]]]];
      vm_compute; intros; congruence.
Defined.

(* ================================================================== *)
(** * Further properties: the similarity matrices at the edges *)

Lemma user_movie_matrix_values {F : Type} {N : PyNum F} (ratings : list (row F)) :
  values (user_movie_matrix ratings)
  = map (fun u => map (fun m => match agg_cell ratings u m with
                                | Some v => v
                                | None => zero
                                end)
                      (columns (user_movie_matrix ratings)))
        (index (user_movie_matrix ratings)).
Proof. reflexivity. Qed.

(** X11.  On the ratings of a single user [pearson_similarity_matrix]
    raises ValueError ([np.corrcoef] returns a 0-d array, which
    [np.fill_diagonal] refuses), while [cosine_similarity_matrix] returns
    the 1 x 1 matrix holding 0, unless a cell of the user's row is not
    finite, which [cosine_similarity] refuses with ValueError. *)
Theorem single_user_matrices :
  forall (F : Type) (N : PyNum F) (ratings : list (row F)) (u : Z),
    index (user_movie_matrix ratings) = [u] ->
    pearson_similarity_matrix ratings = Raise ValueError /\
    cosine_similarity_matrix ratings =
    if forallb (forallb isfinite) (values (user_movie_matrix ratings))
    then Ok (Frame [u] [u] [[zero]])
    else Raise ValueError.
Proof.
  intros F N ratings u Hu.
  unfold pearson_similarity_matrix, cosine_similarity_matrix. cbv zeta.
  rewrite user_movie_matrix_values in *. rewrite Hu in *. cbn [map] in *.
  split.
  - reflexivity.
  - unfold cosine_similarity.
    match goal with |- context [forallb (forallb isfinite) ?X] =>
      destruct (forallb (forallb isfinite) X) end; reflexivity.
Qed.

Lemma single_user_matrices_witness :
  pearson_similarity_matrix lone_ratings = Raise ValueError /\
  cosine_similarity_matrix lone_ratings =
  if forallb (forallb isfinite) (values (user_movie_matrix lone_ratings))
  then Ok (Frame [7%Z] [7%Z] [[zero]])
  else Raise ValueError.
Proof.
  apply (single_user_matrices float float_num lone_ratings 7%Z). vm_compute. reflexivity.
Defined.

Lemma clip_in_range (x : float) :
  isna (clip x) = true \/
  (isna (clip x) = false /\
   PrimFloat.ltb (clip x) (-1) = false /\ PrimFloat.ltb 1 (clip x) = false).
Proof.
  unfold clip. destruct (isna x) eqn:En; [now left|].
  right. cbn [ltb float_num].
  let v := eval vm_compute in (@of_int float float_num (-1)) in
  change (@of_int float float_num (-1)) with v.
  let v := eval vm_compute in (@one float float_num) in
  change (@one float float_num) with v.
  destruct (PrimFloat.ltb x (-1)) eqn:E1.
  - vm_compute. auto.
  - destruct (PrimFloat.ltb 1 x) eqn:E2.
    + vm_compute. auto.
    + auto.
Qed.

(** X12.  In binary64 every entry of the matrix that
    [pearson_similarity_matrix] returns is NaN or a number from -1 to 1
    (neither below -1 nor above 1): [np.corrcoef] clips what rounding
    pushes outside, and lets NaN through. *)
Theorem pearson_entries_in_range :
  forall (ratings : list (row float)) (df : frame float) (i j : nat),
    pearson_similarity_matrix ratings = Ok df ->
    (i < length (index df))%nat -> (j < length (index df))%nat ->
    isna (entry (values df) i j) = true \/
    (isna (entry (values df) i j) = false /\
     PrimFloat.ltb (entry (values df) i j) (-1) = false /\
     PrimFloat.ltb 1 (entry (values df) i j) = false).
Proof.
  intros ratings df i j H Hi Hj.
  destruct (pearson_similarity_matrix_inv ratings df H) as (_ & _ & Hlen & _ & He).
  rewrite Hlen in Hi, Hj. rewrite (He i j Hi Hj).
  destruct (Nat.eqb i j).
  - right. vm_compute. auto.
  - apply clip_in_range.
Qed.

Lemma pearson_entries_in_range_witness :
  exists df,
    pearson_similarity_matrix spec_ratings = Ok df /\
    (isna (entry (values df) 0 1) = true \/
     (isna (entry (values df) 0 1) = false /\
      PrimFloat.ltb (entry (values df) 0 1) (-1) = false /\
      PrimFloat.ltb 1 (entry (values df) 0 1) = false)).
Proof.
  eexists. split.
  - vm_compute. reflexivity.
  - apply (pearson_entries_in_range spec_ratings _ 0 1).
    + vm_compute. reflexivity.
    + simpl. lia.
    + simpl. lia.
Defined.

(* ================================================================== *)
(** * Further properties: load_dataset and get_user_ratings *)

Section Loading.
Context {F : Type} {N : PyNum F}.

Lemma load_dataset_In (rs : list (Z * Z * F)) (ms : list (Z * string)) (r : row F) :
  In r (load_dataset rs ms) <->
  In (rating_line r) rs /\ In (movieId r, title r) ms.
Proof.
  unfold load_dataset, rating_line. rewrite in_flat_map. split.
  - intros ([[u m] v] & Hx & Hr). apply in_map_iff in Hr.
    destruct Hr as ([m' t] & <- & Hmv). apply filter_In in Hmv.
    destruct Hmv as [Hmv E]. simpl in *. apply Z.eqb_eq in E. subst m'. auto.
  - intros [Hx Hmv]. exists (rating_line r). split; [exact Hx|].
    apply in_map_iff. exists (movieId r, title r). split.
    + destruct r; reflexivity.
    + apply filter_In. split; [exact Hmv|]. simpl. apply Z.eqb_refl.
Qed.

Lemma filter_key_absent (ms : list (Z * string)) (m : Z) :
  ~ In m (map fst ms) -> filter (fun mv => (fst mv =? m)%Z) ms = [].
Proof.
  induction ms as [|[k t] ms IH]; simpl; intros H; auto.
  destruct (Z.eqb_spec k m); [exfalso; auto|]. apply IH. tauto.
Qed.

Lemma filter_key_unique (ms : list (Z * string)) (m : Z) :
  NoDup (map fst ms) -> In m (map fst ms) ->
  exists t, filter (fun mv => (fst mv =? m)%Z) ms = [(m, t)].
Proof.
  induction ms as [|[k t] ms IH]; simpl; intros Hnd Hin; [contradiction|].
  inversion Hnd as [|? ? Hk Hms]; subst.
  destruct (Z.eqb_spec k m) as [->|Hne].
  - exists t. now rewrite filter_key_absent.
  - apply IH; auto. destruct Hin; [contradiction|assumption].
Qed.

Lemma filter_key_short (ms : list (Z * string)) (m : Z) :
  NoDup (map fst ms) -> (length (filter (fun mv => (fst mv =? m)%Z) ms) <= 1)%nat.
Proof.
  intros Hnd. destruct (in_dec Z.eq_dec m (map fst ms)) as [Hin|Hout].
  - destruct (filter_key_unique ms m Hnd Hin) as [t ->]. simpl. lia.
  - rewrite filter_key_absent by assumption. simpl. lia.
Qed.

Lemma load_dataset_lines (rs : list (Z * Z * F)) (ms : list (Z * string)) :
  NoDup (map fst ms) ->
  (forall x, In x rs -> In (snd (fst x)) (map fst ms)) ->
  map rating_line (load_dataset rs ms) = rs.
Proof.
  intros Hnd. unfold load_dataset.
  induction rs as [|[[u m] v] rs IH]; intros Hall; simpl; auto.
  destruct (filter_key_unique ms m Hnd) as [t ->].
  { apply (Hall (u, m, v)). now left. }
  simpl. unfold rating_line at 1. simpl. f_equal. apply IH.
  intros x Hx. apply Hall. now right.
Qed.

Lemma map_filter_comm {A B} (f : A -> B) (p : B -> bool) (l : list A) :
  map f (filter (fun a => p (f a)) l) = filter p (map f l).
Proof.
  induction l as [|a l IH]; simpl; auto.
  destruct (p (f a)); simpl; now rewrite IH.
Qed.

Lemma get_user_ratings_cons_other (ratings : list (row F)) (r : row F) (users : list Z) :
  ~ In (userId r) users ->
  flat_map (get_user_ratings (r :: ratings)) users
  = flat_map (get_user_ratings ratings) users.
Proof.
  induction users as [|u users IH]; simpl; intros H; auto.
  destruct (Z.eqb_spec (userId r) u); [exfalso; auto|].
  rewrite IH by tauto. reflexivity.
Qed.

Lemma get_user_ratings_cons (ratings : list (row F)) (r : row F) (users : list Z) :
  NoDup users -> In (userId r) users ->
  Permutation (flat_map (get_user_ratings (r :: ratings)) users)
              (r :: flat_map (get_user_ratings ratings) users).
Proof.
  induction users as [|u users IH]; intros Hnd Hin; [contradiction|].
  inversion Hnd as [|? ? Hu Hus]; subst.
  cbn [flat_map]. unfold get_user_ratings at 1. cbn [filter].
  destruct (Z.eqb_spec (userId r) u) as [E|Hne].
  - rewrite get_user_ratings_cons_other by (rewrite E; exact Hu). reflexivity.
  - destruct Hin as [E|Hin]; [congruence|].
    fold (get_user_ratings ratings u).
    etransitivity; [apply Permutation_app_head, IH; assumption|].
    symmetry. apply Permutation_middle.
Qed.
End Loading.

(** X13.  When every movieId is listed once in the movies file, the
    merged table of [load_dataset] has at most one row per line of the
    ratings file, gives one title to each movieId, and, if the movie of
    every rating is listed, holds exactly the lines of the ratings file,
    in the file's order. *)
Theorem load_dataset_unique_movies :
  forall (F : Type) (N : PyNum F) (rs : list (Z * Z * F)) (ms : list (Z * string)),
    NoDup (map fst ms) ->
    (length (load_dataset rs ms) <= length rs)%nat /\
    (forall r r', In r (load_dataset rs ms) -> In r' (load_dataset rs ms) ->
                  movieId r = movieId r' -> title r = title r') /\
    ((forall x, In x rs -> In (snd (fst x)) (map fst ms)) ->
     map rating_line (load_dataset rs ms) = rs).
Proof.
  intros F N rs ms Hnd. split; [|split].
  - unfold load_dataset. induction rs as [|x rs IH]; simpl; auto.
    rewrite length_app, length_map.
    pose proof (filter_key_short ms (snd (fst x)) Hnd). lia.
  - intros r r' Hr Hr' E.
    apply load_dataset_In in Hr, Hr'. destruct Hr as [_ Hr], Hr' as [_ Hr'].
    rewrite <- E in Hr'. exact (NoDup_map_fst_inj ms _ _ _ Hnd Hr Hr').
  - apply load_dataset_lines. exact Hnd.
Qed.

Lemma load_dataset_unique_movies_witness :
  (length (load_dataset csv_ratings csv_movies) <= length csv_ratings)%nat /\
  (forall r r', In r (load_dataset csv_ratings csv_movies) ->
                In r' (load_dataset csv_ratings csv_movies) ->
                movieId r = movieId r' -> title r = title r') /\
  ((forall x, In x csv_ratings -> In (snd (fst x)) (map fst csv_movies)) ->
   map rating_line (load_dataset csv_ratings csv_movies) = csv_ratings).
Proof.
  apply (load_dataset_unique_movies float float_num csv_ratings csv_movies).
  repeat constructor; simpl; intuition discriminate.
Defined.

(** X14.  A row is in the merged table of [load_dataset] exactly when its
    (userId, movieId, rating) is a line of the ratings file and its
    (movieId, title) a line of the movies file; the ratings of a movie
    that the movies file does not list are dropped, without an error. *)
Theorem load_dataset_rows :
  forall (F : Type) (N : PyNum F) (rs : list (Z * Z * F)) (ms : list (Z * string)),
    (forall r, In r (load_dataset rs ms) <->
               In (rating_line r) rs /\ In (movieId r, title r) ms) /\
    (forall r, In r (load_dataset rs ms) -> In (movieId r) (map fst ms)) /\
    (forall u m v, In (u, m, v) rs -> In m (map fst ms) ->
                   exists t, In (Row u m v t) (load_dataset rs ms)).
Proof.
  intros F N rs ms. split; [|split].
  - intros r. apply load_dataset_In.
  - intros r Hr. apply load_dataset_In in Hr. destruct Hr as [_ Hr].
    apply in_map_iff. exists (movieId r, title r). auto.
  - intros u m v Hx Hm. apply in_map_iff in Hm. destruct Hm as ([m' t] & E & Hmv).
    simpl in E. subst m'. exists t. apply load_dataset_In. auto.
Qed.

(** X15.  [get_user_ratings] on what [load_dataset] returns: when every
    movieId is listed once in the movies file and the movie of every
    rating is listed, the rows of a user are that user's lines of the
    ratings file, in the file's order. *)
Theorem get_user_ratings_of_loaded :
  forall (F : Type) (N : PyNum F) (rs : list (Z * Z * F)) (ms : list (Z * string))
         (user : Z),
    NoDup (map fst ms) ->
    (forall x, In x rs -> In (snd (fst x)) (map fst ms)) ->
    map rating_line (get_user_ratings (load_dataset rs ms) user)
    = filter (fun x => (fst (fst x) =? user)%Z) rs.
Proof.
  intros F N rs ms user Hnd Hall. unfold get_user_ratings.
  rewrite <- (load_dataset_lines rs ms Hnd Hall) at 2.
  apply (map_filter_comm rating_line (fun x => (fst (fst x) =? user)%Z)).
Qed.

Lemma get_user_ratings_of_loaded_witness :
  map rating_line (get_user_ratings (load_dataset [(1, 10, 4%float); (2, 20, 5%float);
                                                   (1, 20, 3%float)]%Z csv_movies) 1)
  = filter (fun x => (fst (fst x) =? 1)%Z)
           [(1, 10, 4%float); (2, 20, 5%float); (1, 20, 3%float)]%Z.
Proof.
  apply (get_user_ratings_of_loaded float float_num
           [(1, 10, 4%float); (2, 20, 5%float); (1, 20, 3%float)]%Z csv_movies 1%Z).
  - repeat constructor; simpl; intuition discriminate.
  - intros x [<-|[<-|[<-|[]]]]; simpl; auto.
Defined.

(** X16.  [get_user_ratings] splits the ratings by user: taken over a
    list of distinct users that covers the table, the users' rows are the
    rows of the table, each as many times as the table has it. *)
Theorem get_user_ratings_partition :
  forall (F : Type) (N : PyNum F) (ratings : list (row F)) (users : list Z),
    NoDup users ->
    (forall r, In r ratings -> In (userId r) users) ->
    Permutation (flat_map (get_user_ratings ratings) users) ratings.
Proof.
  intros F N ratings users Hnd. induction ratings as [|r ratings IH]; intros Hall.
  - rewrite flat_map_nil; auto.
  - etransitivity.
    + apply get_user_ratings_cons; [exact Hnd | apply Hall; now left].
    + constructor. apply IH. intros r' Hr'. apply Hall. now right.
Qed.

Lemma get_user_ratings_partition_witness :
  Permutation (flat_map (get_user_ratings spec_ratings) [2; 1]%Z) spec_ratings.
Proof.
  apply (get_user_ratings_partition float float_num spec_ratings [2; 1]%Z).
  - repeat constructor; simpl; intuition discriminate.
  - intros r [<-|[<-|[<-|[<-|[]]]]]; simpl; auto.
Defined.
